(** * The ingestion engine of [vllm/rag/ingest/scripts/main.py]

    A shallow embedding of the file-ingestion service: the category table
    ([get_category]), the embedding client ([InfinityEmbedding]), the
    per-file transaction ([FileHandler.process_file]) and the startup backlog
    scan of [main], over an explicit world state (file system, vector index,
    clock, log) and a record of external collaborators (document loader,
    HTTP endpoint, vector database, file-system faults). *)

From Stdlib Require Import ZArith Ascii String.
From stdpp Require Import base option list strings pretty gmap fin_maps.

Set Warnings "-register-all".
Open Scope string_scope.

(** ** Python strings and pathlib paths *)

Module PyStr.

(** [str.lower] on the ASCII range. *)
Definition lower_ascii (c : ascii) : ascii :=
  let n := nat_of_ascii c in
  if (65 <=? n)%nat && (n <=? 90)%nat then ascii_of_nat (n + 32) else c.

Fixpoint lower (s : string) : string :=
  match s with
  | EmptyString => EmptyString
  | String c s' => String (lower_ascii c) (lower s')
  end.

(** [s.rfind(c)]: position of the last occurrence, [None] for Python's -1. *)
Fixpoint rfind (c : ascii) (s : string) : option nat :=
  match s with
  | EmptyString => None
  | String a s' =>
      match rfind c s' with
      | Some i => Some (S i)
      | None => if Ascii.eqb a c then Some 0%nat else None
      end
  end.

(** [s[i:]] *)
Fixpoint drop (i : nat) (s : string) : string :=
  match i, s with
  | O, _ => s
  | S j, EmptyString => EmptyString
  | S j, String _ s' => drop j s'
  end.

(** [s.startswith(pre)], returning the rest of [s]. *)
Fixpoint strip_prefix (pre s : string) : option string :=
  match pre, s with
  | EmptyString, _ => Some s
  | String a pre', String b s' =>
      if Ascii.eqb a b then strip_prefix pre' s' else None
  | String _ _, EmptyString => None
  end.

End PyStr.

(** A path is the list of its components below the root: [/app/inbox/a.txt]
    is [["app"; "inbox"; "a.txt"]]. *)
Abbreviation path := (list string) (only parsing).

Module PyPath.

(** [Path.name]: the final component. *)
Definition name (p : path) : string := List.last p "".

(** [Path.parent] *)
Definition parent (p : path) : path := removelast p.

(** [Path.suffix]:
    [i = name.rfind('.'); name[i:] if 0 < i < len(name) - 1 else ''] *)
Definition suffix (p : path) : string :=
  let nm := name p in
  match PyStr.rfind "." nm with
  | Some i =>
      if (0 <? i)%nat && (i <? String.length nm - 1)%nat
      then PyStr.drop i nm else ""
  | None => ""
  end.

(** [Path / component] *)
Definition div (p : path) (c : string) : path := p ++ [c].

End PyPath.

Infix "/:" := PyPath.div (at level 40, left associativity).

(** ** Constants *)

Definition INBOX_DIR : path := ["app"; "inbox"].
Definition PROCESSED_DIR : path := ["app"; "processed"].

(** ** Category Mapper: [get_category] *)

Definition get_category (file_path : path) : string :=
  let ext := PyStr.lower (PyPath.suffix file_path) in
  if bool_decide (ext ∈ [".pdf"]) then "PDF"
  else if bool_decide (ext ∈ [".md"; ".txt"; ".html"; ".htm"]) then "Documents"
  else if bool_decide
            (ext ∈ [".py"; ".js"; ".ts"; ".go"; ".cpp"; ".h"; ".java"; ".yaml"; ".yml"])
       then "Code"
  else "Other".

(** ** Exceptions

    [Exception cls msg] is an instance of Python's [Exception] (or of a
    subclass named [cls]) whose [str()] is [msg]; [BaseException cls] is one
    of the exceptions outside [Exception] ([KeyboardInterrupt],
    [SystemExit]), which [except Exception] does not catch. *)

Inductive exn :=
| Exception (cls msg : string)
| BaseException (cls : string).

Definition exn_str (e : exn) : string :=
  match e with Exception _ msg => msg | BaseException _ => "" end.

Definition exn_cls (e : exn) : string :=
  match e with Exception cls _ => cls | BaseException cls => cls end.

Definition is_Exception (e : exn) : Prop :=
  match e with Exception _ _ => True | BaseException _ => False end.

(** ** JSON values, as [response.json()] returns them *)

Inductive json :=
| JNull
| JBool (b : bool)
| JNum (literal : string)
| JStr (s : string)
| JArr (items : list json)
| JObj (fields : list (string * json)).

Module Py.

Fixpoint assoc (k : string) (fields : list (string * json)) : option json :=
  match fields with
  | [] => None
  | (k', v) :: rest => if String.eqb k k' then Some v else assoc k rest
  end.

(** [j[k]] for a string key [k] *)
Definition getitem (j : json) (k : string) : exn + json :=
  match j with
  | JObj fields =>
      match assoc k fields with
      | Some v => inr v
      | None => inl (Exception "KeyError" ("'" +:+ k +:+ "'"))
      end
  | JArr _ => inl (Exception "TypeError" "list indices must be integers or slices, not str")
  | JStr _ => inl (Exception "TypeError" "string indices must be integers, not 'str'")
  | _ => inl (Exception "TypeError" "object is not subscriptable")
  end.

Fixpoint chars (s : string) : list json :=
  match s with
  | EmptyString => []
  | String c s' => JStr (String c EmptyString) :: chars s'
  end.

(** The items a [for] loop over [j] visits. *)
Definition iter (j : json) : exn + list json :=
  match j with
  | JArr items => inr items
  | JObj fields => inr (map (λ kv, JStr kv.1) fields)
  | JStr s => inr (chars s)
  | _ => inl (Exception "TypeError" "object is not iterable")
  end.

End Py.

(** ** The file system

    A finite map from paths to nodes; the root [[]] is always a directory.
    The content of a regular file stands for the file itself. *)

Inductive node :=
| File (content : string)
| Dir
| Special.

Global Instance node_eq_dec : EqDecision node.
Proof. solve_decision. Defined.

Definition str_path (p : path) : string :=
  foldr (λ c acc, "/" +:+ c +:+ acc) "" p.

Definition OSError (cls errno : string) (p : path) : exn :=
  Exception cls (errno +:+ ": '" +:+ str_path p +:+ "'").

Module Os.

Definition isdir (fs : gmap path node) (p : path) : bool :=
  match p with
  | [] => true
  | _ => match fs !! p with Some Dir => true | _ => false end
  end.

Definition isfile (fs : gmap path node) (p : path) : bool :=
  match fs !! p with Some (File _) => true | _ => false end.

Definition exists_ (fs : gmap path node) (p : path) : bool :=
  match p with
  | [] => true
  | _ => match fs !! p with Some _ => true | None => false end
  end.

(** [os.mkdir(d)] *)
Definition mkdir (d : path) (fs : gmap path node) : exn + gmap path node :=
  if exists_ fs d then inl (OSError "FileExistsError" "[Errno 17] File exists" d)
  else if isdir fs (PyPath.parent d) then inr (<[d := Dir]> fs)
  else if exists_ fs (PyPath.parent d)
       then inl (OSError "NotADirectoryError" "[Errno 20] Not a directory" d)
       else inl (OSError "FileNotFoundError" "[Errno 2] No such file or directory" d).

(** Re-rooting of the entries below a renamed directory. *)
Definition reroot (src dst q : path) : path :=
  if bool_decide (src `prefix_of` q) then dst ++ drop (length src) q else q.

Definition rename_tree (src dst : path) (fs : gmap path node) : gmap path node :=
  list_to_map (map (λ '(q, n), (reroot src dst q, n)) (map_to_list fs)).

Definition empty_dir (fs : gmap path node) (d : path) : bool :=
  bool_decide (Forall (λ q, d `prefix_of` q → q = d) (map_to_list fs).*1).

(** [os.rename(src, dst)], POSIX: an existing destination that is not a
    directory is replaced. *)
Definition rename (src dst : path) (fs : gmap path node)
  : exn + gmap path node :=
  match fs !! src with
  | None => inl (OSError "FileNotFoundError" "[Errno 2] No such file or directory" src)
  | Some n =>
      if negb (isdir fs (PyPath.parent dst)) then
        inl (OSError "FileNotFoundError" "[Errno 2] No such file or directory" dst)
      else
        match n, fs !! dst with
        | Dir, Some Dir =>
            if bool_decide (src = dst) then inr fs
            else if empty_dir fs dst && negb (bool_decide (src `prefix_of` dst))
                 then inr (rename_tree src dst fs)
                 else inl (OSError "OSError" "[Errno 39] Directory not empty" dst)
        | Dir, Some _ => inl (OSError "NotADirectoryError" "[Errno 20] Not a directory" dst)
        | Dir, None =>
            if bool_decide (src `prefix_of` dst)
            then inl (OSError "OSError" "[Errno 22] Invalid argument" dst)
            else inr (rename_tree src dst fs)
        | _, Some Dir => inl (OSError "IsADirectoryError" "[Errno 21] Is a directory" dst)
        | _, _ => inr (<[dst := n]> (delete src fs))
        end
  end.

End Os.

(** ** [pathlib] and [shutil] operations on the file system *)

(** [d.mkdir(parents=False, exist_ok=True)] *)
Definition Path_mkdir_leaf (d : path) (fs : gmap path node)
  : exn + gmap path node :=
  match Os.mkdir d fs with
  | inr fs' => inr fs'
  | inl e =>
      if String.eqb (exn_cls e) "FileNotFoundError" then inl e
      else if Os.isdir fs d then inr fs else inl e
  end.

(** [d.mkdir(parents=True, exist_ok=True)] for the prefix of [d] of length
    [n]: try [os.mkdir]; on [FileNotFoundError] create the parent the same
    way and retry; on another [OSError] accept an existing directory. *)
Fixpoint Path_mkdir_parents (n : nat) (d : path) (fs : gmap path node)
  : exn + gmap path node :=
  let self := take n d in
  match Os.mkdir self fs with
  | inr fs' => inr fs'
  | inl e =>
      if String.eqb (exn_cls e) "FileNotFoundError" then
        match n with
        | O => inl e
        | S m =>
            match Path_mkdir_parents m d fs with
            | inl e' => inl e'
            | inr fs1 => Path_mkdir_leaf self fs1
            end
        end
      else if Os.isdir fs self then inr fs else inl e
  end.

Definition Path_mkdir (d : path) (fs : gmap path node) : exn + gmap path node :=
  Path_mkdir_parents (length d) d fs.

(** [list(d.iterdir())]: each entry of the directory once, in the order of
    the directory listing. *)
Definition Path_iterdir (d : path) (fs : gmap path node) : exn + list path :=
  if Os.isdir fs d
  then inr (filter (λ q, q ≠ [] ∧ PyPath.parent q = d) (map_to_list fs).*1)
  else inl (OSError "FileNotFoundError" "[Errno 2] No such file or directory" d).

Module Shutil.

(** [shutil.move(src, dst)] with source and destination on one file
    system, where it is [os.rename]: a destination that is a directory
    receives the source under its own name, and only there an existing
    entry is refused. *)
Definition move (src dst : path) (fs : gmap path node)
  : exn + gmap path node :=
  if Os.isdir fs dst then
    if bool_decide (src = dst) then Os.rename src dst fs
    else
      let real_dst := dst /: PyPath.name src in
      if Os.exists_ fs real_dst
      then inl (Exception "Error"
                  ("Destination path '" +:+ str_path real_dst +:+ "' already exists"))
      else Os.rename src real_dst fs
  else Os.rename src dst fs.

End Shutil.

(** ** Data of the pipeline *)

(** A chunk as the loader returns it: its text and the path it came from. *)
Record Document := { doc_text : string; doc_source : path }.

(** A record of the vector index. *)
Record IndexRecord :=
  { rec_vector : json; rec_text : string; rec_source : path }.

Inductive level := INFO | ERROR.

Global Instance level_eq_dec : EqDecision level.
Proof. solve_decision. Defined.

Record EmbeddingRequest := { req_input : list string; req_model : string }.

Record Response := { status_code : nat; body : option json }.

Record InfinityEmbedding := { model_name : string; base_url : string }.

(** [event.is_directory], [event.src_path] of a watchdog event *)
Record FileSystemEvent := { is_directory : bool; src_path : path }.

(** ** The world and the external collaborators *)

(** File system, vector index (keyed by source path and chunk index), wall
    clock in whole seconds since the epoch, the log, and the state [E] of
    everything outside the process (network, services, permissions). The
    clock advances through [time.sleep] alone: the time the collaborators
    take is not modelled. *)
Record World {E : Type} := mkWorld {
  w_fs : gmap path node;
  w_index : gmap (path * nat) IndexRecord;
  w_clock : Z;
  w_log : list (level * string);
  w_ext : E;
}.
Arguments World : clear implicits.
Arguments mkWorld {E}.

Definition set_fs {E : Type} (x : gmap path node) (w : World E) : World E :=
  mkWorld x (w_index w) (w_clock w) (w_log w) (w_ext w).
Definition set_index {E : Type} (x : gmap (path * nat) IndexRecord) (w : World E) : World E :=
  mkWorld (w_fs w) x (w_clock w) (w_log w) (w_ext w).
Definition set_clock {E : Type} (x : Z) (w : World E) : World E :=
  mkWorld (w_fs w) (w_index w) x (w_log w) (w_ext w).
Definition set_log {E : Type} (x : list (level * string)) (w : World E) : World E :=
  mkWorld (w_fs w) (w_index w) (w_clock w) x (w_ext w).
Definition set_ext {E : Type} (x : E) (w : World E) : World E :=
  mkWorld (w_fs w) (w_index w) (w_clock w) (w_log w) x.

(** What the service calls but does not implement. Each call may change the
    outside state and may raise.
    - [load_data p fs]: [SimpleDirectoryReader(input_files=[p]).load_data()];
    - [requests_post url req]: [requests.post(url, json=req)];
    - [qdrant_upsert key r]: the network outcome of one upsert, [None] when
      the database acknowledged it;
    - [mkdir_fault], [move_fault]: an operating-system refusal (permission
      denied, read-only volume) of a directory creation or of a move. *)
Record Collaborators {E : Type} := {
  load_data : path → gmap path node → E → E * (exn + list Document);
  requests_post : string → EmbeddingRequest → E → E * (exn + Response);
  qdrant_upsert : path * nat → IndexRecord → E → E * option exn;
  mkdir_fault : path → E → E * option exn;
  move_fault : path → path → E → E * option exn;
}.
Arguments Collaborators : clear implicits.

(** ** Stateful, fallible computations

    A computation changes the world and returns a value or raises; what it
    did before raising stays done. *)

Definition M (E A : Type) : Type := World E → World E * (exn + A).

Global Instance M_ret {E : Type} : MRet (M E) := λ A x w, (w, inr x).

Global Instance M_bind {E : Type} : MBind (M E) := λ A B f m w,
  match m w with
  | (w', inl e) => (w', inl e)
  | (w', inr x) => f x w'
  end.

Definition raise {E A : Type} (e : exn) : M E A := λ w, (w, inl e).

Definition lift {E A : Type} (r : exn + A) : M E A := λ w, (w, r).

Definition gets {E A : Type} (f : World E → A) : M E A := λ w, (w, inr (f w)).

Definition modify {E : Type} (f : World E → World E) : M E unit := λ w, (f w, inr tt).

(** [try: body except Exception as e: handler(e)] *)
Definition try_except {E : Type} (body : M E unit) (handler : exn → M E unit) : M E unit :=
  λ w, match body w with
       | (w', inl (Exception cls msg)) => handler (Exception cls msg) w'
       | r => r
       end.

(** A list comprehension whose element expression may raise. *)
Fixpoint comprehension {A B : Type} (f : A → exn + B) (l : list A) : exn + list B :=
  match l with
  | [] => inr []
  | x :: rest =>
      match f x with
      | inl e => inl e
      | inr y =>
          match comprehension f rest with
          | inl e => inl e
          | inr ys => inr (y :: ys)
          end
      end
  end.

Definition logger_info {E : Type} (msg : string) : M E unit :=
  modify (λ w, set_log (w_log w ++ [(INFO, msg)]) w).

Definition logger_error {E : Type} (msg : string) : M E unit :=
  modify (λ w, set_log (w_log w ++ [(ERROR, msg)]) w).

Definition time_sleep {E : Type} (secs : Z) : M E unit :=
  modify (λ w, set_clock (w_clock w + secs)%Z w).

(** [int(time.time())] *)
Definition time_time {E : Type} : M E Z := gets w_clock.

(** ** The service *)

Section Engine.

Context {E : Type}.
Variable C : Collaborators E.
(** [Settings.embed_model] *)
Variable embed_model : InfinityEmbedding.

(** *** Embedding client: [InfinityEmbedding] *)

Definition post (url : string) (req : EmbeddingRequest) : M E Response :=
  λ w, let '(e', r) := requests_post C url req (w_ext w) in (set_ext e' w, r).

(** [response.raise_for_status()] *)
Definition raise_for_status (r : Response) : M E unit :=
  if (400 <=? status_code r)%nat && (status_code r <? 600)%nat
  then raise (Exception "HTTPError" (pretty (status_code r) +:+ " Error"))
  else mret tt.

(** [response.json()] *)
Definition response_json (r : Response) : M E json :=
  match body r with
  | Some j => mret j
  | None => raise (Exception "JSONDecodeError" "Expecting value")
  end.

(** [j[0]] *)
Definition first_item (j : json) : exn + json :=
  match j with
  | JArr (x :: _) => inr x
  | JArr [] => inl (Exception "IndexError" "list index out of range")
  | JStr (String c _) => inr (JStr (String c EmptyString))
  | JStr EmptyString => inl (Exception "IndexError" "string index out of range")
  | JObj _ => inl (Exception "KeyError" "0")
  | _ => inl (Exception "TypeError" "object is not subscriptable")
  end.

Definition _get_text_embedding (self : InfinityEmbedding) (text : string)
  : M E json :=
  response ← post (base_url self +:+ "/embeddings")
               {| req_input := [text]; req_model := model_name self |};
  raise_for_status response;;
  j ← response_json response;
  data ← lift (Py.getitem j "data");
  item ← lift (first_item data);
  lift (Py.getitem item "embedding").

Definition _get_query_embedding (self : InfinityEmbedding) (query : string)
  : M E json :=
  _get_text_embedding self query.

Definition _get_text_embeddings (self : InfinityEmbedding) (texts : list string)
  : M E (list json) :=
  response ← post (base_url self +:+ "/embeddings")
               {| req_input := texts; req_model := model_name self |};
  raise_for_status response;;
  j ← response_json response;
  data ← lift (Py.getitem j "data");
  items ← lift (Py.iter data);
  lift (comprehension (λ item, Py.getitem item "embedding") items).

(** *** Vector Index Writer *)

(** One upsert: insert-or-overwrite under the key, unless the call fails. *)
Definition upsert (key : path * nat) (r : IndexRecord) : M E unit :=
  λ w, let '(e', fault) := qdrant_upsert C key r (w_ext w) in
       match fault with
       | Some e => (set_ext e' w, inl e)
       | None => (set_index (<[key := r]> (w_index w)) (set_ext e' w), inr tt)
       end.

Definition chunk_record (d : Document) (v : json) : IndexRecord :=
  {| rec_vector := v; rec_text := doc_text d; rec_source := doc_source d |}.

Fixpoint upsert_chunks (i : nat) (chunks : list (Document * json)) : M E unit :=
  match chunks with
  | [] => mret tt
  | (d, v) :: rest =>
      upsert (doc_source d, i) (chunk_record d v);;
      upsert_chunks (S i) rest
  end.

(** Modelled from the spec: [VectorStoreIndex.from_documents], whose body
    is in the llama_index and qdrant libraries and not in this repository.
    As the spec describes the Embedding+Indexing step: no chunk, no index
    contribution; otherwise the vectors of all chunks are obtained in one
    batch from the embedding client, a response that does not give one
    vector per chunk fails the step, and each chunk is then upserted under
    the key (source path, chunk index), one upsert per chunk in order. *)
Definition from_documents (documents : list Document) : M E unit :=
  match documents with
  | [] => mret tt
  | _ =>
      vectors ← _get_text_embeddings embed_model (map doc_text documents);
      if bool_decide (length vectors = length documents)
      then upsert_chunks 0 (zip documents vectors)
      else raise (Exception "ValueError" "expected one embedding per chunk")
  end.

(** *** Processing Coordinator: [FileHandler] *)

Definition reader_load_data (file_path : path) : M E (list Document) :=
  λ w, let '(e', r) := load_data C file_path (w_fs w) (w_ext w) in
       (set_ext e' w, r).

(** [dest_dir.mkdir(parents=True, exist_ok=True)] *)
Definition mkdir (d : path) : M E unit :=
  λ w, let '(e', fault) := mkdir_fault C d (w_ext w) in
       let w1 := set_ext e' w in
       match fault with
       | Some e => (w1, inl e)
       | None =>
           match Path_mkdir d (w_fs w1) with
           | inl e => (w1, inl e)
           | inr fs' => (set_fs fs' w1, inr tt)
           end
       end.

(** [shutil.move(str(src), str(dst))] *)
Definition shutil_move (src dst : path) : M E unit :=
  λ w, let '(e', fault) := move_fault C src dst (w_ext w) in
       let w1 := set_ext e' w in
       match fault with
       | Some e => (w1, inl e)
       | None =>
           match Shutil.move src dst (w_fs w1) with
           | inl e => (w1, inl e)
           | inr fs' => (set_fs fs' w1, inr tt)
           end
       end.

(** Lines 107-120: load, then index. *)
Definition load_and_index (file_path : path) : M E unit :=
  let name := PyPath.name file_path in
  logger_info ("Loading data from " +:+ name +:+ "...");;
  documents ← reader_load_data file_path;
  logger_info ("Loaded " +:+ pretty (length documents)
               +:+ " document chunks from " +:+ name);;
  logger_info ("Indexing " +:+ name +:+ " to Qdrant...");;
  from_documents documents;;
  logger_info ("Successfully indexed " +:+ name).

(** The archive destination for a move at time [t]. *)
Definition archive_path (file_path : path) (t : Z) : path :=
  PROCESSED_DIR /: get_category file_path
                /: (pretty t +:+ "_" +:+ PyPath.name file_path).

(** Lines 122-131: sort and move. *)
Definition sort_and_move (file_path : path) : M E unit :=
  let name := PyPath.name file_path in
  let category := get_category file_path in
  let dest_dir := PROCESSED_DIR /: category in
  mkdir dest_dir;;
  t ← time_time;
  let new_name := pretty t +:+ "_" +:+ name in
  shutil_move file_path (dest_dir /: new_name);;
  logger_info ("Moved " +:+ name +:+ " to " +:+ category +:+ "/").

(** The body of the [try]. *)
Definition process_file_try (file_path : path) : M E unit :=
  load_and_index file_path;;
  sort_and_move file_path.

Definition process_file (file_path : path) : M E unit :=
  let name := PyPath.name file_path in
  time_sleep 1;;
  logger_info ("New file detected: " +:+ name);;
  try_except (process_file_try file_path)
    (λ e, logger_error ("Error processing " +:+ name +:+ ": " +:+ exn_str e)).

Definition on_created (event : FileSystemEvent) : M E unit :=
  if negb (is_directory event) then process_file (src_path event) else mret tt.

(** *** Backlog scan of [main] (lines 154-157) *)

Fixpoint backlog_loop (entries : list path) : M E unit :=
  match entries with
  | [] => mret tt
  | file_path :: rest =>
      regular ← gets (λ w, Os.isfile (w_fs w) file_path);
      (if regular : bool then process_file file_path else mret tt);;
      backlog_loop rest
  end.

Definition main_backlog_scan : M E unit :=
  entries ← (λ w, (w, Path_iterdir INBOX_DIR (w_fs w)));
  backlog_loop entries.

End Engine.

(** ** A concrete outside world

    The loader splits a file at its spaces, one chunk per word, and rejects a
    path that is not a regular file; the embedding endpoint answers in input
    order; the vector database accepts as many upserts as the outside state
    counts and is unreachable afterwards; the operating system refuses
    nothing. *)

Module Demo.

Definition embedding_of (text : string) : json :=
  JArr [JNum (pretty (String.length text));
        JNum (match text with
              | EmptyString => "0"
              | String c _ => pretty (nat_of_ascii c)
              end)].

Definition loader (p : path) (fs : gmap path node) (budget : nat)
  : nat * (exn + list Document) :=
  match fs !! p with
  | Some (File content) =>
      (budget, inr (map (λ t, {| doc_text := t; doc_source := p |})
                      (String.words content)))
  | _ => (budget, inl (Exception "ValueError"
                         ("File " +:+ str_path p +:+ " does not exist.")))
  end.

Definition endpoint (url : string) (req : EmbeddingRequest) (budget : nat)
  : nat * (exn + Response) :=
  (budget,
   inr {| status_code := 200;
          body := Some (JObj [("object", JStr "list");
                              ("data", JArr (map (λ t, JObj [("object", JStr "embedding");
                                                           ("embedding", embedding_of t)])
                                            (req_input req)));
                              ("model", JStr (req_model req))]) |}).

Definition database (key : path * nat) (r : IndexRecord) (budget : nat)
  : nat * option exn :=
  match budget with
  | O => (O, Some (Exception "ResponseHandlingException" "Connection refused"))
  | S b => (b, None)
  end.

Definition collaborators : Collaborators nat :=
  {| load_data := loader;
     requests_post := endpoint;
     qdrant_upsert := database;
     mkdir_fault := λ _ budget, (budget, None);
     move_fault := λ _ _ budget, (budget, None) |}.

Definition model : InfinityEmbedding :=
  {| model_name := "BAAI/bge-m3"; base_url := "http://infinity:7997" |}.

Definition world (files : list (path * node)) (now : Z) (budget : nat)
  : World nat :=
  {| w_fs := list_to_map files; w_index := ∅; w_clock := now;
     w_log := []; w_ext := budget |}.

Definition inbox_only (name content : string) : list (path * node) :=
  [(["app"], Dir); (INBOX_DIR, Dir); (PROCESSED_DIR, Dir);
   (INBOX_DIR /: name, File content)].

End Demo.

(** ** Notions used in the statements *)

(** The world in which the [try] block of [process_file] is entered: after
    the settle delay and the detection message. *)
Definition settled {E : Type} (file_path : path) (w : World E) : World E :=
  set_log (w_log w ++ [(INFO, "New file detected: " +:+ PyPath.name file_path)])
    (set_clock (w_clock w + 1)%Z w).

(** The index after the chunks were upserted in order, the first under
    chunk index [i]. *)
Fixpoint upserted (i : nat) (chunks : list (Document * json))
    (idx : gmap (path * nat) IndexRecord) : gmap (path * nat) IndexRecord :=
  match chunks with
  | [] => idx
  | (d, v) :: rest => upserted (S i) rest (<[(doc_source d, i) := chunk_record d v]> idx)
  end.


(** The file names for which a processing attempt was started, read off the
    log: one detection message per call of [process_file]. *)
Definition attempts (l : list (level * string)) : list string :=
  omap (λ r, match r.1 with
             | INFO => PyStr.strip_prefix "New file detected: " r.2
             | ERROR => None
             end) l.

(** The messages logged at level ERROR. *)
Definition errors (l : list (level * string)) : list string :=
  omap (λ r, match r.1 with ERROR => Some r.2 | INFO => None end) l.

(** The collaborators fail with errors only, that is with instances of
    [Exception]: no interrupt arrives during a call. *)
Record errors_only {E : Type} (C : Collaborators E) : Prop := {
  load_data_error : ∀ p fs e e' x, load_data C p fs e = (e', inl x) → is_Exception x;
  requests_post_error : ∀ u r e e' x, requests_post C u r e = (e', inl x) → is_Exception x;
  qdrant_upsert_error : ∀ k r e e' x, qdrant_upsert C k r e = (e', Some x) → is_Exception x;
  mkdir_fault_error : ∀ d e e' x, mkdir_fault C d e = (e', Some x) → is_Exception x;
  move_fault_error : ∀ a b e e' x, move_fault C a b e = (e', Some x) → is_Exception x;
}.

(** The loader rejects a path at which there is no file. *)
Definition loader_rejects_missing {E : Type} (C : Collaborators E) : Prop :=
  ∀ p fs e, fs !! p = None →
    ∃ e' cls msg, load_data C p fs e = (e', inl (Exception cls msg)).


(** The extensions of the category table. *)
Definition document_exts : list string := [".md"; ".txt"; ".html"; ".htm"].
Definition code_exts : list string :=
  [".py"; ".js"; ".ts"; ".go"; ".cpp"; ".h"; ".java"; ".yaml"; ".yml"].



(** Between two file systems only directories were created, all of them
    on the way to [d]. *)
Definition dirs_added (d : path) (fs fs' : gmap path node) : Prop :=
  ∀ q, fs' !! q = fs !! q ∨
       (fs !! q = None ∧ fs' !! q = Some Dir ∧ q `prefix_of` d).

(** A computation that only talks to the outside: file system, index,
    clock and log stay as they are, and the outcome does not depend on
    the index. *)
Definition outside_only {E A : Type} (m : M E A) : Prop :=
  ∀ f c l e, ∃ e' r, ∀ idx,
    m (mkWorld f idx c l e) = (mkWorld f idx c l e', r).

(** A computation that raises errors only. *)
Definition raises_errors {E A : Type} (m : M E A) : Prop :=
  ∀ w w' x, m w = (w', inl x) → is_Exception x.

(** A computation that starts no attempt: it appends to the log, and
    nothing it appends is a detection message. *)
Definition logs_quietly {E A : Type} (m : M E A) : Prop :=
  ∀ w w' r, m w = (w', r) →
    ∃ more, w_log w' = (w_log w ++ more)%list ∧ attempts more = [].

(** Projections of updated worlds. *)
Ltac world_simpl :=
  unfold logger_info, logger_error, time_sleep, time_time, gets, modify,
    set_fs, set_index, set_clock, set_log, set_ext;
  cbn [w_fs w_index w_clock w_log w_ext].

(** ** Startup of [main] (lines 136-157) *)

(** [os.makedirs(name, exist_ok=True)] for the prefix of [d] of length [n]:
    a missing parent is created first the same way (a [FileExistsError]
    from there is passed over), then [os.mkdir] is tried, and an [OSError]
    from it is accepted when the name is a directory by then. *)
Fixpoint Os_makedirs (n : nat) (d : path) (fs : gmap path node)
  : exn + gmap path node :=
  let name := take n d in
  let finish (fs1 : gmap path node) :=
    match Os.mkdir name fs1 with
    | inr fs2 => inr fs2
    | inl e => if Os.isdir fs1 name then inr fs1 else inl e
    end in
  match n with
  | O => finish fs
  | S m =>
      let head := take m d in
      let tail := PyPath.name name in
      if negb (Os.exists_ fs head) then
        match Os_makedirs m d fs with
        | inl e =>
            if String.eqb (exn_cls e) "FileExistsError"
            then (if String.eqb tail "." then inr fs else finish fs)
            else inl e
        | inr fs1 => if String.eqb tail "." then inr fs1 else finish fs1
        end
      else finish fs
  end.

Section Startup.

Context {E : Type}.
Variable C : Collaborators E.
Variable embed_model : InfinityEmbedding.
(** Lines 143-150: the Qdrant client, the vector store, the handler and the
    observer are built and started; [None] when none of this raised. *)
Variable start_services : E → E * option exn.

(** [os.makedirs(d, exist_ok=True)] *)
Definition os_makedirs (d : path) : M E unit :=
  λ w, let '(e', fault) := mkdir_fault C d (w_ext w) in
       let w1 := set_ext e' w in
       match fault with
       | Some e => (w1, inl e)
       | None =>
           match Os_makedirs (length d) d (w_fs w1) with
           | inl e => (w1, inl e)
           | inr fs' => (set_fs fs' w1, inr tt)
           end
       end.

Definition services : M E unit :=
  λ w, let '(e', fault) := start_services (w_ext w) in
       match fault with
       | Some e => (set_ext e' w, inl e)
       | None => (set_ext e' w, inr tt)
       end.

(** Lines 137-152 of [main]: everything before the backlog scan. *)
Definition main_prepare : M E unit :=
  logger_info "Starting Ingestion Engine...";;
  os_makedirs INBOX_DIR;;
  os_makedirs PROCESSED_DIR;;
  services;;
  logger_info ("Watching directory: " +:+ str_path INBOX_DIR).

(** [main] up to the end of the backlog scan; the idle loop that follows
    runs until the process is interrupted. *)
Definition main_startup : M E unit :=
  main_prepare;;
  main_backlog_scan C embed_model.

End Startup.

(** An endpoint that answers every request with the embeddings of its
    first two inputs only. *)
Module Short.

Definition endpoint (url : string) (req : EmbeddingRequest) (budget : nat)
  : nat * (exn + Response) :=
  (budget,
   inr {| status_code := 200;
          body := Some (JObj [("data",
                               JArr (map (λ t, JObj [("embedding", Demo.embedding_of t)])
                                       (take 2 (req_input req))))]) |}).

Definition collaborators : Collaborators nat :=
  {| load_data := Demo.loader;
     requests_post := endpoint;
     qdrant_upsert := Demo.database;
     mkdir_fault := λ _ budget, (budget, None);
     move_fault := λ _ _ budget, (budget, None) |}.

End Short.

(** Only messages at level INFO were appended to the log. *)
Definition logs_info_only {E A : Type} (m : M E A) : Prop :=
  ∀ w w' r, m w = (w', r) →
    ∃ more, w_log w' = (w_log w ++ more)%list ∧ Forall (λ rec, rec.1 = INFO) more.

(** A string without the given character. *)
Fixpoint free_of (c : ascii) (s : string) : Prop :=
  match s with
  | EmptyString => True
  | String a s' => a ≠ c ∧ free_of c s'
  end.

(** * Properties *)

(** ** Category Mapper *)

Example get_category_report : get_category (INBOX_DIR /: "report.pdf") = "PDF".
Proof. reflexivity. Qed.
Example get_category_notes : get_category (INBOX_DIR /: "notes.md") = "Documents".
Proof. reflexivity. Qed.
Example get_category_unknown :
  get_category (INBOX_DIR /: "script.unknownext") = "Other".
Proof. reflexivity. Qed.
Example get_category_upper : get_category (INBOX_DIR /: "Main.PY") = "Code".
Proof. reflexivity. Qed.
Example get_category_hidden : get_category (INBOX_DIR /: ".pdf") = "Other".
Proof. reflexivity. Qed.
Example get_category_last_suffix :
  get_category (INBOX_DIR /: "backup.pdf.txt") = "Documents".
Proof. reflexivity. Qed.

(** The table, read as a specification: the category depends on the
    lower-cased extension only, and every extension has one. *)
Lemma get_category_table (file_path : path) :
  let ext := PyStr.lower (PyPath.suffix file_path) in
  (ext = ".pdf" → get_category file_path = "PDF") ∧
  (ext ∈ document_exts → get_category file_path = "Documents") ∧
  (ext ∈ code_exts → get_category file_path = "Code") ∧
  (ext ≠ ".pdf" → ext ∉ document_exts → ext ∉ code_exts →
   get_category file_path = "Other").
Proof.
  unfold get_category, document_exts, code_exts. cbv zeta.
  generalize (PyStr.lower (PyPath.suffix file_path)) as ext. intros ext.
  repeat case_bool_decide;
    repeat match goal with
           | H : _ ∈ _ |- _ => rewrite ?elem_of_cons, elem_of_nil in H
           | H : _ ∉ _ |- _ => rewrite ?not_elem_of_cons, elem_of_nil in H
           end;
    rewrite ?elem_of_cons, ?not_elem_of_cons, ?elem_of_nil;
    intuition (try reflexivity; try congruence).
Qed.


(** ** Sequencing *)

Section Sequencing.

Context {E A B : Type}.
Implicit Types (m : M E A) (f : A → M E B) (w : World E).

Lemma bind_inr m f w w' x : m w = (w', inr x) → (m ≫= f) w = f x w'.
Proof. intros H. unfold mbind, M_bind. rewrite H. reflexivity. Qed.

Lemma bind_inl m f w w' e : m w = (w', inl e) → (m ≫= f) w = (w', inl e).
Proof. intros H. unfold mbind, M_bind. rewrite H. reflexivity. Qed.

Lemma bind_inv m f w w2 r :
  (m ≫= f) w = (w2, r) →
  (∃ e, m w = (w2, inl e) ∧ r = inl e) ∨
  (∃ w1 x, m w = (w1, inr x) ∧ f x w1 = (w2, r)).
Proof.
  unfold mbind, M_bind. destruct (m w) as [w1 [e|x]]; intros H.
  - left. exists e. inversion H. auto.
  - right. eauto.
Qed.

End Sequencing.

(** ** Embedding client *)

Section EmbeddingClient.

Context {E : Type} (C : Collaborators E).

Lemma raise_for_status_success (r : Response) (w : World E) :
  (status_code r < 400)%nat → raise_for_status r w = (w, inr tt).
Proof.
  intros H. unfold raise_for_status.
  replace (400 <=? status_code r)%nat with false
    by (symmetry; apply Nat.leb_gt; lia).
  reflexivity.
Qed.



End EmbeddingClient.


(** ** Effects of the steps of one attempt *)

Lemma dirs_added_refl d fs : dirs_added d fs fs.
Proof. intros q. by left. Qed.

Lemma dirs_added_trans d fs1 fs2 fs3 :
  dirs_added d fs1 fs2 → dirs_added d fs2 fs3 → dirs_added d fs1 fs3.
Proof.
  intros H12 H23 q.
  destruct (H12 q) as [Ha|(Ha & Hb & Hp)], (H23 q) as [Hc|(Hc & Hd & Hp')].
  - left. congruence.
  - right. repeat split; congruence.
  - right. repeat split; congruence.
  - congruence.
Qed.


Lemma dirs_added_isfile d fs fs' q :
  dirs_added d fs fs' → Os.isfile fs' q = Os.isfile fs q.
Proof.
  intros H. unfold Os.isfile.
  destruct (H q) as [Ha|(Ha & Hb & _)]; rewrite ?Ha; [done|]. by rewrite Hb.
Qed.

Lemma dirs_added_kept d fs fs' q n :
  dirs_added d fs fs' → fs !! q = Some n → fs' !! q = Some n.
Proof. intros H Hq. destruct (H q) as [->|(Hnone & _)]; congruence. Qed.


Lemma Os_mkdir_dirs_added d0 d fs fs' :
  d0 `prefix_of` d → Os.mkdir d0 fs = inr fs' → dirs_added d fs fs'.
Proof.
  intros Hpre. unfold Os.mkdir. destruct (Os.exists_ fs d0) eqn:Hex; [done|].
  destruct (Os.isdir fs (PyPath.parent d0));
    [|destruct (Os.exists_ fs (PyPath.parent d0)); discriminate].
  intros [= <-] q. destruct (decide (d0 = q)) as [->|Hne].
  - right. rewrite lookup_insert_eq. split; [|done].
    unfold Os.exists_ in Hex. destruct q; [done|]. by destruct (fs !! _).
  - left. by rewrite lookup_insert_ne.
Qed.

Lemma Path_mkdir_leaf_dirs_added d0 d fs fs' :
  d0 `prefix_of` d → Path_mkdir_leaf d0 fs = inr fs' → dirs_added d fs fs'.
Proof.
  intros Hpre. unfold Path_mkdir_leaf.
  destruct (Os.mkdir d0 fs) as [e|fs1] eqn:Hmk.
  - destruct (String.eqb _ _); [done|].
    destruct (Os.isdir fs d0); [|done]. intros [= <-]. apply dirs_added_refl.
  - intros [= <-]. by eapply Os_mkdir_dirs_added.
Qed.

Lemma Path_mkdir_parents_dirs_added n d fs fs' :
  Path_mkdir_parents n d fs = inr fs' → dirs_added d fs fs'.
Proof.
  assert (Hpre : ∀ k, take k d `prefix_of` d).
  { intros k. exists (drop k d). by rewrite take_drop. }
  revert fs fs'. induction n as [|n IH]; intros fs fs'; simpl.
  - intros [= <-]. apply dirs_added_refl.
  - destruct (Os.mkdir _ fs) as [e|fs1] eqn:Hmk.
    + destruct (String.eqb _ _).
      * destruct (Path_mkdir_parents n d fs) as [e'|fs1] eqn:Hrec; [done|].
        intros Hleaf. eapply dirs_added_trans; [by eapply IH|].
        eapply Path_mkdir_leaf_dirs_added; [|done]. apply (Hpre (S n)).
      * destruct (Os.isdir fs _); [|done]. intros [= <-]. apply dirs_added_refl.
    + intros [= <-]. eapply Os_mkdir_dirs_added; [|done]. apply (Hpre (S n)).
Qed.

Lemma Path_mkdir_dirs_added d fs fs' :
  Path_mkdir d fs = inr fs' → dirs_added d fs fs'.
Proof. apply Path_mkdir_parents_dirs_added. Qed.

(** An existing directory is accepted as it is. *)
Lemma Path_mkdir_existing d fs : Os.isdir fs d = true → Path_mkdir d fs = inr fs.
Proof.
  intros Hdir. unfold Path_mkdir. destruct d as [|c d]; [done|].
  assert (Hmk : Os.mkdir (c :: d) fs
                = inl (OSError "FileExistsError" "[Errno 17] File exists" (c :: d))).
  { unfold Os.mkdir. replace (Os.exists_ fs (c :: d)) with true; [done|].
    unfold Os.isdir, Os.exists_ in *. by destruct (fs !! _) as [[]|]. }
  cbn [length Path_mkdir_parents take]. rewrite firstn_all, Hmk, Hdir.
  reflexivity.
Qed.

(** Moving something that is not a directory: either the move is refused
    and nothing changes, or the node is now at the destination, or inside
    the destination when that was a directory. *)
Lemma Shutil_move_file src dst fs n :
  fs !! src = Some n → n ≠ Dir →
  (∃ e, Shutil.move src dst fs = inl e) ∨
  (∃ real, Shutil.move src dst fs = inr (<[real := n]> (delete src fs)) ∧
           (real = dst ∨
            (Os.isdir fs dst = true ∧ real = dst /: PyPath.name src))).
Proof.
  intros Hsrc Hn.
  assert (Hren : ∀ d, (∃ e, Os.rename src d fs = inl e) ∨
                      Os.rename src d fs = inr (<[d := n]> (delete src fs))).
  { intros d. unfold Os.rename. rewrite Hsrc.
    destruct (negb _); [eauto|].
    destruct n, (fs !! d) as [[]|]; eauto; done. }
  unfold Shutil.move. destruct (Os.isdir fs dst) eqn:Hdir.
  - case_bool_decide as Heq.
    + destruct (Hren dst) as [?|Hr]; [eauto|]. right. eauto.
    + destruct (Os.exists_ fs _); [eauto|].
      destruct (Hren (dst /: PyPath.name src)) as [?|Hr]; [eauto|].
      right. eauto.
  - destruct (Hren dst) as [?|Hr]; [eauto|]. right. eauto.
Qed.

(** ** What a computation can touch *)

Section Footprint.

Context {E : Type}.

Lemma outside_only_ret {A : Type} (x : A) : outside_only (mret x : M E A).
Proof. intros f c l e. by exists e, (inr x). Qed.

Lemma outside_only_raise {A : Type} (x : exn) : outside_only (raise x : M E A).
Proof. intros f c l e. by exists e, (inl x). Qed.

Lemma outside_only_lift {A : Type} (r : exn + A) : outside_only (lift r : M E A).
Proof. intros f c l e. by exists e, r. Qed.

Lemma outside_only_bind {A B : Type} (m : M E A) (k : A → M E B) :
  outside_only m → (∀ x, outside_only (k x)) → outside_only (m ≫= k).
Proof.
  intros Hm Hk f c l e. destruct (Hm f c l e) as (e1 & [x|a] & H1).
  - exists e1, (inl x). intros idx. by erewrite bind_inl.
  - destruct (Hk a f c l e1) as (e2 & r & H2).
    exists e2, r. intros idx. erewrite bind_inr; [|apply H1]. apply H2.
Qed.

Lemma raises_errors_bind {A B : Type} (m : M E A) (k : A → M E B) :
  raises_errors m → (∀ x, raises_errors (k x)) → raises_errors (m ≫= k).
Proof.
  intros Hm Hk w w' x H. apply bind_inv in H as [(e & H & [= ->])|(w1 & a & H1 & H2)].
  - by eapply Hm.
  - by eapply Hk.
Qed.

Lemma raises_errors_total {A : Type} (m : M E A) :
  (∀ w, ∃ w' x, m w = (w', inr x)) → raises_errors m.
Proof. intros H w w' x Hw. destruct (H w) as (? & ? & Heq). congruence. Qed.

Lemma raises_errors_lift {A : Type} (r : exn + A) :
  (∀ x, r = inl x → is_Exception x) → raises_errors (lift r : M E A).
Proof. intros H w w' x [= _ ->]. by apply H. Qed.

Lemma raises_errors_raise {A : Type} cls msg :
  raises_errors (raise (Exception cls msg) : M E A).
Proof. by intros w w' x [= _ <-]. Qed.

End Footprint.

Lemma getitem_error j k x : Py.getitem j k = inl x → is_Exception x.
Proof.
  destruct j; simpl; try (by intros [= <-]).
  destruct (Py.assoc k fields); [done|]. by intros [= <-].
Qed.

Lemma iter_error j x : Py.iter j = inl x → is_Exception x.
Proof. destruct j; simpl; try done; by intros [= <-]. Qed.

Lemma comprehension_error {A B : Type} (f : A → exn + B) (l : list A) x :
  (∀ a y, f a = inl y → is_Exception y) →
  comprehension f l = inl x → is_Exception x.
Proof.
  intros Hf. induction l as [|a l IH]; simpl; [done|].
  destruct (f a) as [y|b] eqn:Ha.
  - intros [= <-]. by eapply Hf.
  - destruct (comprehension f l); [|done]. intros [= <-]. by apply IH.
Qed.

Lemma Os_mkdir_error d fs x : Os.mkdir d fs = inl x → is_Exception x.
Proof.
  unfold Os.mkdir. destruct (Os.exists_ fs d); [by intros [= <-]|].
  destruct (Os.isdir fs _); [done|].
  destruct (Os.exists_ fs _); by intros [= <-].
Qed.

Lemma Path_mkdir_error d fs x : Path_mkdir d fs = inl x → is_Exception x.
Proof.
  assert (Hleaf : ∀ d' fs' y, Path_mkdir_leaf d' fs' = inl y → is_Exception y).
  { intros d' fs' y. unfold Path_mkdir_leaf.
    destruct (Os.mkdir d' fs') as [e|] eqn:Hmk; [|done].
    apply Os_mkdir_error in Hmk.
    destruct (String.eqb _ _); [by intros [= <-]|].
    destruct (Os.isdir _ _); [done|]. by intros [= <-]. }
  unfold Path_mkdir. generalize (length d) as n. intros n. revert fs x.
  induction n as [|n IH]; intros fs x.
  - simpl. done.
  - cbn [Path_mkdir_parents].
    destruct (Os.mkdir _ fs) as [e|] eqn:Hmk; [|done].
    apply Os_mkdir_error in Hmk.
    destruct (String.eqb _ _).
    + destruct (Path_mkdir_parents n d fs) as [e'|fs1] eqn:Hrec.
      * intros [= <-]. by eapply IH.
      * apply Hleaf.
    + destruct (Os.isdir _ _); [done|]. by intros [= <-].
Qed.

Lemma Shutil_move_error src dst fs x : Shutil.move src dst fs = inl x → is_Exception x.
Proof.
  assert (Hren : ∀ d y, Os.rename src d fs = inl y → is_Exception y).
  { intros d y. unfold Os.rename. destruct (fs !! src) as [n|]; [|by intros [= <-]].
    destruct (negb _); [by intros [= <-]|].
    destruct n, (fs !! d) as [[]|]; try done; try (by intros [= <-]).
    - case_bool_decide; [done|].
      destruct (Os.empty_dir _ _ && _); [done|]. by intros [= <-].
    - case_bool_decide; [|done]. by intros [= <-]. }
  unfold Shutil.move. destruct (Os.isdir fs dst); [|apply Hren].
  case_bool_decide; [apply Hren|].
  destruct (Os.exists_ _ _); [by intros [= <-]|apply Hren].
Qed.

(** ** The steps of the coordinator *)

Section Coordinator.

Context {E : Type} (C : Collaborators E) (em : InfinityEmbedding).

Lemma post_outside_only url req : outside_only (post C url req).
Proof.
  intros f c l e. destruct (requests_post C url req e) as [e1 r] eqn:H.
  exists e1, r. intros idx. unfold post. simpl. by rewrite H.
Qed.

Lemma raise_for_status_outside_only resp :
  outside_only (raise_for_status resp : M E unit).
Proof.
  unfold raise_for_status.
  destruct (_ && _); [apply outside_only_raise|apply outside_only_ret].
Qed.

Lemma response_json_outside_only resp :
  outside_only (response_json resp : M E json).
Proof.
  unfold response_json.
  destruct (body resp); [apply outside_only_ret|apply outside_only_raise].
Qed.

Lemma get_text_embeddings_outside_only self texts :
  outside_only (_get_text_embeddings C self texts).
Proof.
  unfold _get_text_embeddings.
  apply outside_only_bind; [apply post_outside_only|intros resp].
  apply outside_only_bind; [apply raise_for_status_outside_only|intros _].
  apply outside_only_bind; [apply response_json_outside_only|intros j].
  apply outside_only_bind; [apply outside_only_lift|intros data].
  apply outside_only_bind; [apply outside_only_lift|intros items].
  apply outside_only_lift.
Qed.

Lemma get_text_embeddings_errors self texts :
  errors_only C → raises_errors (_get_text_embeddings C self texts).
Proof.
  intros HC. unfold _get_text_embeddings.
  apply raises_errors_bind.
  { intros w w' x. unfold post.
    destruct (requests_post _ _ _ _) as [e1 r] eqn:H. intros [= _ ->].
    by eapply (requests_post_error C HC). }
  intros resp. apply raises_errors_bind.
  { unfold raise_for_status. destruct (_ && _).
    - apply raises_errors_raise.
    - by intros w w' x. }
  intros _. apply raises_errors_bind.
  { unfold response_json. destruct (body resp).
    - by intros w w' x.
    - apply raises_errors_raise. }
  intros j. apply raises_errors_bind.
  { apply raises_errors_lift. apply getitem_error. }
  intros data. apply raises_errors_bind.
  { apply raises_errors_lift. apply iter_error. }
  intros items. apply raises_errors_lift. intros x.
  apply comprehension_error. intros a y. apply getitem_error.
Qed.

(** The per-chunk upserts write the records of a prefix of the chunks:
    all of them when the step returns, those before the failing upsert
    when it raises. Nothing is taken back. *)
Lemma upsert_chunks_spec chunks : ∀ i f c l e,
  ∃ e' k r, (k ≤ length chunks)%nat ∧ (r = inr tt ↔ k = length chunks) ∧
    ∀ idx, upsert_chunks C i chunks (mkWorld f idx c l e)
           = (mkWorld f (upserted i (take k chunks) idx) c l e', r).
Proof.
  induction chunks as [|[d v] chunks IH]; intros i f c l e.
  - exists e, 0, (inr tt). repeat split; auto.
  - cbn [upsert_chunks].
    destruct (qdrant_upsert C (doc_source d, i) (chunk_record d v) e)
      as [e1 [x|]] eqn:Hup.
    + exists e1, 0, (inl x). split; [simpl; lia|]. split; [split; [done|simpl; lia]|].
      intros idx. erewrite bind_inl; [done|]. unfold upsert. simpl. by rewrite Hup.
    + destruct (IH (S i) f c l e1) as (e' & k & r & Hk & Hr & Hrun).
      exists e', (S k), r. split; [simpl; lia|]. split.
      { rewrite Hr. simpl. lia. }
      intros idx. erewrite bind_inr; [|unfold upsert; simpl; by rewrite Hup].
      simpl. apply Hrun.
Qed.

Lemma upsert_chunks_errors chunks i :
  errors_only C → raises_errors (upsert_chunks C i chunks).
Proof.
  intros HC. revert i. induction chunks as [|[d v] chunks IH]; intros i.
  - by intros w w' x.
  - cbn [upsert_chunks]. apply raises_errors_bind; [|intros _; apply IH].
    intros w w' x. unfold upsert.
    destruct (qdrant_upsert _ _ _ _) as [e1 [y|]] eqn:Hup; [|done].
    intros [= _ ->]. by eapply (qdrant_upsert_error C HC).
Qed.

(** The indexing step as a whole: the records of the first [k] of the
    [n] chunks are upserted, [k = n] exactly when the step returns; the
    outcome does not depend on what the index held before. *)
Lemma from_documents_spec documents : ∀ f c l e,
  ∃ e' chunks k r, chunks.*1 = documents ∧ (k ≤ length documents)%nat ∧
    (r = inr tt ↔ k = length documents) ∧
    ∀ idx, from_documents C em documents (mkWorld f idx c l e)
           = (mkWorld f (upserted 0 (take k chunks) idx) c l e', r).
Proof.
  intros f c l e. unfold from_documents.
  destruct documents as [|d0 ds]; [by exists e, [], 0, (inr tt)|].
  set (documents := d0 :: ds).
  destruct (get_text_embeddings_outside_only em (map doc_text documents) f c l e)
    as (e1 & [x|vectors] & Hemb).
  - exists e1, (map (λ d, (d, JNull)) documents), 0, (inl x).
    split; [by rewrite <- list_fmap_compose, list_fmap_id|].
    split; [lia|]. split; [done|].
    intros idx. by erewrite bind_inl.
  - destruct (decide (length vectors = length documents)) as [Hlen|Hlen].
    + destruct (upsert_chunks_spec (zip documents vectors) 0 f c l e1)
        as (e' & k & r & Hk & Hr & Hrun).
      rewrite length_zip, Hlen, Nat.min_id in Hk, Hr.
      exists e', (zip documents vectors), k, r.
      split; [apply fst_zip; lia|]. split; [done|]. split; [done|].
      intros idx. erewrite bind_inr; [|apply Hemb].
      rewrite bool_decide_eq_true_2 by done. apply Hrun.
    + exists e1, (map (λ d, (d, JNull)) documents), 0,
        (inl (Exception "ValueError" "expected one embedding per chunk")).
      split; [by rewrite <- list_fmap_compose, list_fmap_id|].
      split; [lia|]. split; [done|].
      intros idx. erewrite bind_inr; [|apply Hemb].
      by rewrite bool_decide_eq_false_2.
Qed.

Lemma from_documents_errors documents :
  errors_only C → raises_errors (from_documents C em documents).
Proof.
  intros HC. unfold from_documents. destruct documents as [|d0 ds].
  - by intros w w' x.
  - apply raises_errors_bind; [by apply get_text_embeddings_errors|].
    intros vectors. case_bool_decide.
    + by apply upsert_chunks_errors.
    + apply raises_errors_raise.
Qed.

End Coordinator.

Section Attempt.

Context {E : Type} (C : Collaborators E) (em : InfinityEmbedding).

Lemma world_eta (w : World E) :
  w = mkWorld (w_fs w) (w_index w) (w_clock w) (w_log w) (w_ext w).
Proof. by destruct w. Qed.

(** Loading and indexing leave file system and clock alone and write the
    records of the first [k] chunks; they return only after the loader
    returned the chunks and every one of them was written. *)
Lemma load_and_index_spec file_path : ∀ f c l e,
  ∃ e' l' chunks k r, (k ≤ length chunks)%nat ∧
    (r = inr tt → k = length chunks) ∧
    ((∃ e1, load_data C file_path f e = (e1, inr chunks.*1)) ∨
     (chunks = [] ∧ r ≠ inr tt)) ∧
    ∀ idx, load_and_index C em file_path (mkWorld f idx c l e)
           = (mkWorld f (upserted 0 (take k chunks) idx) c l' e', r).
Proof.
  intros f c l e. unfold load_and_index. cbv zeta.
  destruct (load_data C file_path f e) as [e1 [x|documents]] eqn:Hload.
  - eexists e1, _, [], 0, (inl x). split; [done|]. split; [done|].
    split; [by right|]. intros idx.
    erewrite bind_inr; [|reflexivity].
    erewrite bind_inl; [reflexivity|].
    unfold reader_load_data. world_simpl. rewrite Hload. reflexivity.
  - destruct (from_documents_spec C em documents f c
                (l ++ [(INFO, "Loading data from " +:+ PyPath.name file_path +:+ "...")]
                   ++ [(INFO, "Loaded " +:+ pretty (length documents)
                               +:+ " document chunks from " +:+ PyPath.name file_path)]
                   ++ [(INFO, "Indexing " +:+ PyPath.name file_path +:+ " to Qdrant...")])
                e1)
      as (e' & chunks & k & r & Hchunks & Hk & Hr & Hrun).
    assert (Hlen : length chunks = length documents)
      by (by rewrite <- Hchunks, length_fmap).
    destruct r as [x|[]].
    + eexists e', _, chunks, k, (inl x). split; [lia|]. split; [done|].
      split; [left; exists e1; by rewrite Hchunks|]. intros idx.
      erewrite bind_inr; [|reflexivity].
      erewrite bind_inr; [|unfold reader_load_data; world_simpl; rewrite Hload; reflexivity].
      erewrite bind_inr; [|reflexivity].
      erewrite bind_inr; [|reflexivity].
      erewrite bind_inl; [reflexivity|].
      world_simpl.
      rewrite <- !(assoc_L (++)). apply Hrun.
    + eexists e', _, chunks, k, (inr tt). split; [lia|].
      split; [intros _; rewrite Hlen; by apply Hr|].
      split; [left; exists e1; by rewrite Hchunks|]. intros idx.
      erewrite bind_inr; [|reflexivity].
      erewrite bind_inr; [|unfold reader_load_data; world_simpl; rewrite Hload; reflexivity].
      erewrite bind_inr; [|reflexivity].
      erewrite bind_inr; [|reflexivity].
      erewrite bind_inr;
        [|world_simpl; rewrite <- !(assoc_L (++)); apply Hrun].
      world_simpl. reflexivity.
Qed.

(** Sorting and moving something that is not a directory: at most
    directories are created, and then either the step raises, or the node
    is at the archive destination (inside it, had the destination been a
    directory) and gone from its source path. *)
Lemma sort_and_move_spec file_path (w : World E) n :
  w_fs w !! file_path = Some n → n ≠ Dir →
  ∃ fs1 e', dirs_added (PROCESSED_DIR /: get_category file_path) (w_fs w) fs1 ∧
    ((∃ x, sort_and_move C file_path w
           = (mkWorld fs1 (w_index w) (w_clock w) (w_log w) e', inl x)) ∨
     (∃ real,
        sort_and_move C file_path w
        = (mkWorld (<[real := n]> (delete file_path fs1)) (w_index w) (w_clock w)
             (w_log w ++ [(INFO, "Moved " +:+ PyPath.name file_path +:+ " to "
                                  +:+ get_category file_path +:+ "/")]) e',
           inr tt) ∧
        (real = archive_path file_path (w_clock w) ∨
         (Os.isdir fs1 (archive_path file_path (w_clock w)) = true ∧
          real = archive_path file_path (w_clock w) /: PyPath.name file_path)))).
Proof.
  intros Hsrc Hn. unfold sort_and_move. cbv zeta.
  set (dest_dir := PROCESSED_DIR /: get_category file_path).
  destruct (mkdir_fault C dest_dir (w_ext w)) as [e1 [x|]] eqn:Hfault.
  { exists (w_fs w), e1. split; [apply dirs_added_refl|]. left. exists x.
    erewrite bind_inl; [reflexivity|]. unfold mkdir. by rewrite Hfault. }
  destruct (Path_mkdir dest_dir (w_fs w)) as [x|fs1] eqn:Hmk.
  { exists (w_fs w), e1. split; [apply dirs_added_refl|]. left. exists x.
    erewrite bind_inl; [reflexivity|]. unfold mkdir. rewrite Hfault. simpl.
    by rewrite Hmk. }
  assert (Hadded : dirs_added dest_dir (w_fs w) fs1) by (by eapply Path_mkdir_dirs_added).
  assert (Hsrc1 : fs1 !! file_path = Some n) by (by eapply dirs_added_kept).
  set (dst := dest_dir /: (pretty (w_clock w) +:+ "_" +:+ PyPath.name file_path)).
  assert (Hstart : ∀ k : unit → M E unit,
            (mkdir C dest_dir ≫= k) w
            = k tt (mkWorld fs1 (w_index w) (w_clock w) (w_log w) e1)).
  { intros k. erewrite bind_inr; [reflexivity|]. unfold mkdir.
    rewrite Hfault. simpl. by rewrite Hmk. }
  rewrite Hstart. clear Hstart.
  erewrite bind_inr; [|reflexivity]. simpl w_clock. fold dst.
  destruct (move_fault C file_path dst e1) as [e2 [x|]] eqn:Hfault2.
  { exists fs1, e2. split; [done|]. left. exists x.
    erewrite bind_inl; [reflexivity|]. unfold shutil_move. simpl.
    by rewrite Hfault2. }
  exists fs1, e2. split; [done|].
  destruct (Shutil_move_file file_path dst fs1 n Hsrc1 Hn)
    as [[x Hmv]|(real & Hmv & Hreal)].
  - left. exists x. erewrite bind_inl; [reflexivity|].
    unfold shutil_move. simpl. rewrite Hfault2. simpl. by rewrite Hmv.
  - right. exists real. split; [|exact Hreal].
    erewrite bind_inr;
      [|unfold shutil_move; simpl; rewrite Hfault2; simpl; by rewrite Hmv].
    reflexivity.
Qed.

Lemma process_file_unfold file_path (w : World E) :
  process_file C em file_path w
  = try_except (process_file_try C em file_path)
      (λ e, logger_error ("Error processing " +:+ PyPath.name file_path
                          +:+ ": " +:+ exn_str e))
      (settled file_path w).
Proof. reflexivity. Qed.

Lemma settled_eta file_path (w : World E) :
  settled file_path w
  = mkWorld (w_fs w) (w_index w) (w_clock w + 1)%Z
      (w_log w ++ [(INFO, "New file detected: " +:+ PyPath.name file_path)])
      (w_ext w).
Proof. reflexivity. Qed.

(** One attempt on something that is not a directory. The index receives
    the records of the first [k] chunks. Then either the [try] block
    raised and the file system is as before, directories apart; or it
    returned, all chunks were loaded and written, and the node moved from
    its path to the archive. *)
Lemma process_file_spec file_path (w : World E) n :
  w_fs w !! file_path = Some n → n ≠ Dir →
  ∃ fs1 chunks k w' r,
    process_file C em file_path w = (w', r) ∧
    dirs_added (PROCESSED_DIR /: get_category file_path) (w_fs w) fs1 ∧
    (k ≤ length chunks)%nat ∧
    w_index w' = upserted 0 (take k chunks) (w_index w) ∧
    w_clock w' = (w_clock w + 1)%Z ∧
    ((∃ e1, load_data C file_path (w_fs w) (w_ext w) = (e1, inr chunks.*1)) ∨
     chunks = []) ∧
    ((w_fs w' = fs1 ∧
      ∃ w1 x, process_file_try C em file_path (settled file_path w) = (w1, inl x)) ∨
     (k = length chunks ∧
      (∃ e1, load_data C file_path (w_fs w) (w_ext w) = (e1, inr chunks.*1)) ∧
      process_file_try C em file_path (settled file_path w) = (w', inr tt) ∧
      r = inr tt ∧
      ∃ real, w_fs w' = <[real := n]> (delete file_path fs1) ∧
        (real = archive_path file_path (w_clock w + 1) ∨
         (Os.isdir fs1 (archive_path file_path (w_clock w + 1)) = true ∧
          real = archive_path file_path (w_clock w + 1) /: PyPath.name file_path)))).
Proof.
  intros Hsrc Hn. rewrite process_file_unfold, settled_eta.
  destruct (load_and_index_spec file_path (w_fs w) (w_clock w + 1)%Z
              (w_log w ++ [(INFO, "New file detected: " +:+ PyPath.name file_path)])
              (w_ext w))
    as (e' & l' & chunks & k & r & Hk & Hr & Hloaded & Hrun).
  specialize (Hrun (w_index w)).
  assert (Hloaded' : (∃ e1, load_data C file_path (w_fs w) (w_ext w)
                            = (e1, inr chunks.*1)) ∨ chunks = []).
  { destruct Hloaded as [?|[? _]]; auto. }
  unfold try_except, process_file_try.
  destruct r as [x|[]].
  - erewrite bind_inl; [|apply Hrun].
    exists (w_fs w), chunks, k.
    destruct x as [cls msg|cls]; eexists _, _;
      (split; [reflexivity|]); (split; [apply dirs_added_refl|]);
      (split; [done|]); (split; [reflexivity|]); (split; [reflexivity|]);
      (split; [done|]); left; (split; [reflexivity|]); eauto.
  - specialize (Hr eq_refl). destruct Hloaded as [Hload|[_ ?]]; [|done].
    erewrite bind_inr; [|apply Hrun].
    match goal with |- context [sort_and_move C file_path ?w1] =>
      destruct (sort_and_move_spec file_path w1 n Hsrc Hn)
        as (fs1 & e2 & Hadded & [[x Hmv]|(real & Hmv & Hreal)])
    end; cbn [w_fs w_index w_clock w_log] in *; rewrite Hmv.
    + exists fs1, chunks, k.
      destruct x as [cls msg|cls]; eexists _, _;
        (split; [reflexivity|]); (split; [done|]);
        (split; [done|]); (split; [reflexivity|]); (split; [reflexivity|]);
        (split; [done|]); left; (split; [reflexivity|]); eauto.
    + exists fs1, chunks, k. eexists _, _.
      split; [reflexivity|]. split; [done|]. split; [done|].
      split; [reflexivity|]. split; [reflexivity|]. split; [done|].
      right. split; [done|]. split; [done|]. split; [reflexivity|].
      split; [reflexivity|]. exists real. split; [reflexivity|]. done.
Qed.

End Attempt.

(** ** Error containment *)

Section Containment.

Context {E : Type} (C : Collaborators E) (em : InfinityEmbedding).
Hypothesis HC : errors_only C.

Lemma logger_info_errors msg : raises_errors (logger_info msg : M E unit).
Proof. by intros w w' x. Qed.

Lemma reader_load_data_errors file_path :
  raises_errors (reader_load_data C file_path).
Proof.
  intros w w' x. unfold reader_load_data.
  destruct (load_data _ _ _ _) as [e1 r] eqn:H. intros [= _ ->].
  by eapply (load_data_error C HC).
Qed.

Lemma mkdir_errors d : raises_errors (mkdir C d).
Proof.
  intros w w' x. unfold mkdir.
  destruct (mkdir_fault _ _ _) as [e1 [y|]] eqn:H.
  - intros [= _ ->]. by eapply (mkdir_fault_error C HC).
  - cbv zeta. destruct (Path_mkdir _ _) as [y|] eqn:Hmk; [|done].
    intros [= _ ->]. by eapply Path_mkdir_error.
Qed.

Lemma shutil_move_errors src dst : raises_errors (shutil_move C src dst).
Proof.
  intros w w' x. unfold shutil_move.
  destruct (move_fault _ _ _ _) as [e1 [y|]] eqn:H.
  - intros [= _ ->]. by eapply (move_fault_error C HC).
  - cbv zeta. destruct (Shutil.move _ _ _) as [y|] eqn:Hmv; [|done].
    intros [= _ ->]. by eapply Shutil_move_error.
Qed.

Lemma load_and_index_errors file_path :
  raises_errors (load_and_index C em file_path).
Proof.
  unfold load_and_index. cbv zeta.
  apply raises_errors_bind; [apply logger_info_errors|intros _].
  apply raises_errors_bind; [apply reader_load_data_errors|intros documents].
  apply raises_errors_bind; [apply logger_info_errors|intros _].
  apply raises_errors_bind; [apply logger_info_errors|intros _].
  apply raises_errors_bind; [by apply from_documents_errors|intros _].
  apply logger_info_errors.
Qed.

Lemma sort_and_move_errors file_path :
  raises_errors (sort_and_move C file_path).
Proof.
  unfold sort_and_move. cbv zeta.
  apply raises_errors_bind; [apply mkdir_errors|intros _].
  apply raises_errors_bind; [by intros w w' x|intros t].
  apply raises_errors_bind; [apply shutil_move_errors|intros _].
  apply logger_info_errors.
Qed.

Lemma process_file_try_errors file_path :
  raises_errors (process_file_try C em file_path).
Proof.
  unfold process_file_try.
  apply raises_errors_bind; [apply load_and_index_errors|intros _].
  apply sort_and_move_errors.
Qed.

(** With errors only, an attempt always returns; a raised error ends up
    in the log. *)
Lemma process_file_returns file_path (w : World E) :
  ∃ w', process_file C em file_path w = (w', inr tt) ∧
    ∀ w1 x, process_file_try C em file_path (settled file_path w) = (w1, inl x) →
      w' = set_log (w_log w1 ++ [(ERROR, "Error processing " +:+ PyPath.name file_path
                                           +:+ ": " +:+ exn_str x)]) w1.
Proof.
  rewrite process_file_unfold. unfold try_except.
  destruct (process_file_try C em file_path (settled file_path w))
    as [w1 [x|[]]] eqn:Htry.
  - pose proof (process_file_try_errors _ _ _ _ Htry) as Hx.
    destruct x as [cls msg|cls]; [|done].
    eexists. split; [reflexivity|]. by intros ? ? [= <- <-].
  - eexists. split; [reflexivity|]. by intros.
Qed.

End Containment.

(** ** The demonstration collaborators *)

Lemma Demo_errors_only : errors_only Demo.collaborators.
Proof.
  split; simpl.
  - intros p fs e e' x. unfold Demo.loader.
    destruct (fs !! p) as [[]|]; try done; by intros [= _ <-].
  - intros u r e e' x. unfold Demo.endpoint. done.
  - intros k r e e' x. unfold Demo.database. destruct e; [|done]. by intros [= _ <-].
  - done.
  - done.
Defined.

Lemma Demo_loader_rejects_missing : loader_rejects_missing Demo.collaborators.
Proof.
  intros p fs e Hnone. simpl. unfold Demo.loader. rewrite Hnone. eauto.
Defined.

(** ** The per-file transaction *)

(** C10. With collaborators that fail with errors (instances of
    [Exception]), [process_file] never raises to its caller: it returns
    normally for every path and world; an error raised in the [try] block
    by the loader, the embedding call, an index write, the directory
    creation or the move is logged as "Error processing <name>: <error>"
    and nothing else changes; and the backlog loop goes on with the
    remaining entries, as a live event returns to the observer. *)
Theorem process_file_never_raises {E : Type} (C : Collaborators E)
    (em : InfinityEmbedding) (file_path : path) (w : World E) :
  errors_only C →
  ∃ w', process_file C em file_path w = (w', inr tt) ∧
    (∀ w1 x,
       process_file_try C em file_path (settled file_path w) = (w1, inl x) →
       w' = set_log (w_log w1 ++ [(ERROR, "Error processing " +:+ PyPath.name file_path
                                            +:+ ": " +:+ exn_str x)]) w1) ∧
    (∀ rest, Os.isfile (w_fs w) file_path = true →
       backlog_loop C em (file_path :: rest) w = backlog_loop C em rest w') ∧
    (∀ event, src_path event = file_path →
       ∃ w'', on_created C em event w = (w'', inr tt)).
Proof.
  intros HC. destruct (process_file_returns C em HC file_path w) as (w' & Hrun & Hlog).
  exists w'. split; [done|]. split; [done|]. split.
  - intros rest Hreg. cbn [backlog_loop].
    erewrite bind_inr; [|reflexivity]. rewrite Hreg.
    erewrite bind_inr; [reflexivity|done].
  - intros event <-. unfold on_created. destruct (is_directory event); simpl.
    + by eexists.
    + by exists w'.
Qed.

Lemma process_file_never_raises_witness :
  errors_only Demo.collaborators ∧
  ∃ w', process_file Demo.collaborators Demo.model (INBOX_DIR /: "notes.md")
          (Demo.world (Demo.inbox_only "notes.md" "alpha beta gamma") 1000 1)
        = (w', inr tt).
Proof.
  split; [exact Demo_errors_only|].
  destruct (process_file_never_raises Demo.collaborators Demo.model
              (INBOX_DIR /: "notes.md")
              (Demo.world (Demo.inbox_only "notes.md" "alpha beta gamma") 1000 1)
              Demo_errors_only) as (w' & H & _).
  by exists w'.
Defined.

(** C2. If loading or indexing raises (the loader, the embedding call or
    any per-chunk index write), the archive move is not performed: the file
    system after the attempt is the one before it, so the file is still at
    its inbox path and nothing was added to the archive. *)
Theorem failed_indexing_keeps_file {E : Type} (C : Collaborators E)
    (em : InfinityEmbedding) (file_path : path) (w w1 : World E) (x : exn) :
  load_and_index C em file_path (settled file_path w) = (w1, inl x) →
  w_fs (process_file C em file_path w).1 = w_fs w ∧
  w_fs (process_file C em file_path w).1 !! file_path = w_fs w !! file_path.
Proof.
  intros Hfail.
  assert (Hfs : w_fs (process_file C em file_path w).1 = w_fs w); [|by rewrite Hfs].
  rewrite process_file_unfold. unfold try_except, process_file_try.
  erewrite bind_inl; [|exact Hfail].
  destruct (load_and_index_spec C em file_path (w_fs w) (w_clock w + 1)%Z
              (w_log w ++ [(INFO, "New file detected: " +:+ PyPath.name file_path)])
              (w_ext w))
    as (e' & l' & chunks & k & r & _ & _ & _ & Hrun).
  specialize (Hrun (w_index w)). rewrite <- settled_eta, Hfail in Hrun.
  injection Hrun as -> _.
  by destruct x.
Qed.

Lemma failed_indexing_keeps_file_witness :
  let w := Demo.world (Demo.inbox_only "notes.md" "alpha beta gamma") 1000 1 in
  let p := INBOX_DIR /: "notes.md" in
  w_fs (process_file Demo.collaborators Demo.model p w).1 = w_fs w ∧
  w_fs (process_file Demo.collaborators Demo.model p w).1 !! p = w_fs w !! p.
Proof.
  intros w p.
  eapply (failed_indexing_keeps_file Demo.collaborators Demo.model p w).
  vm_compute. reflexivity.
Defined.

(** C6, as amended. An event for a path at which there is no file is not
    recognised as "already archived": with a loader that rejects a missing
    path, the attempt takes the failure path. The rejection is caught and
    logged as an error, nothing is raised to the caller, and file system
    (inbox and archive) and index are unchanged. *)
Theorem missing_file_is_a_logged_failure {E : Type} (C : Collaborators E)
    (em : InfinityEmbedding) (file_path : path) (w : World E) :
  w_fs w !! file_path = None →
  loader_rejects_missing C →
  ∃ w' msg,
    process_file C em file_path w = (w', inr tt) ∧
    w_fs w' = w_fs w ∧ w_index w' = w_index w ∧
    w_log w' = (w_log w ++
      [(INFO, "New file detected: " +:+ PyPath.name file_path);
       (INFO, "Loading data from " +:+ PyPath.name file_path +:+ "...");
       (ERROR, "Error processing " +:+ PyPath.name file_path +:+ ": " +:+ msg)])%list.
Proof.
  intros Hnone Hrej.
  destruct (Hrej file_path (w_fs w) (w_ext w) Hnone) as (e' & cls & msg & Hload).
  eexists _, msg. rewrite process_file_unfold.
  unfold try_except, process_file_try, load_and_index. cbv zeta.
  erewrite bind_inl;
    [|erewrite bind_inr; [|reflexivity];
      erewrite bind_inl; [reflexivity|];
      unfold reader_load_data, settled; world_simpl; rewrite Hload; reflexivity].
  world_simpl. split; [reflexivity|]. split; [reflexivity|]. split; [reflexivity|].
  unfold settled. world_simpl. by rewrite <- !(assoc_L (++)).
Qed.

Lemma missing_file_is_a_logged_failure_witness :
  let w := Demo.world [(["app"], Dir); (INBOX_DIR, Dir); (PROCESSED_DIR, Dir)] 1000 5 in
  let p := INBOX_DIR /: "gone.txt" in
  ∃ w' msg,
    process_file Demo.collaborators Demo.model p w = (w', inr tt) ∧
    w_fs w' = w_fs w ∧ w_index w' = w_index w ∧
    w_log w' = (w_log w ++
      [(INFO, "New file detected: " +:+ PyPath.name p);
       (INFO, "Loading data from " +:+ PyPath.name p +:+ "...");
       (ERROR, "Error processing " +:+ PyPath.name p +:+ ": " +:+ msg)])%list.
Proof.
  intros w p.
  apply (missing_file_is_a_logged_failure Demo.collaborators Demo.model p w).
  - vm_compute. reflexivity.
  - exact Demo_loader_rejects_missing.
Defined.

(** C6, as stated, fails: the duplicate event against a moved file is
    reported as an error. *)
Lemma duplicate_event_is_reported_as_error :
  let w := Demo.world [(["app"], Dir); (INBOX_DIR, Dir); (PROCESSED_DIR, Dir)] 1000 5 in
  let p := INBOX_DIR /: "gone.txt" in
  let w' := (process_file Demo.collaborators Demo.model p w).1 in
  w_fs w !! p = None ∧
  errors (w_log w) = [] ∧
  errors (w_log w')
  = ["Error processing gone.txt: File /app/inbox/gone.txt does not exist."] ∧
  ¬ (w_fs w' = w_fs w ∧ w_index w' = w_index w ∧ errors (w_log w') = errors (w_log w)).
Proof.
  intros w p w'.
  assert (Herr : errors (w_log w')
                 = ["Error processing gone.txt: File /app/inbox/gone.txt does not exist."])
    by (vm_compute; reflexivity).
  split; [vm_compute; reflexivity|]. split; [reflexivity|]. split; [exact Herr|].
  intros (_ & _ & Hno). rewrite Herr in Hno. discriminate Hno.
Qed.

(** ** Collision-Safe Archiver *)

Lemma parent_div (d : path) (c : string) : PyPath.parent (d /: c) = d.
Proof. apply removelast_last. Qed.

Lemma name_div (d : path) (c : string) : PyPath.name (d /: c) = c.
Proof. apply last_last. Qed.

(** C5, as amended. The archiver names the target
    [{epochSeconds}_{originalFilename}] and makes no check for an existing
    entry: when the operating system refuses nothing and a regular file of
    that name is already in the category directory, the move replaces it
    with the processed file and the step returns normally; every other
    path keeps what it held. *)
Theorem archive_move_replaces_existing_file {E : Type} (C : Collaborators E)
    (file_path : path) (w : World E) (content old : string) (e1 e2 : E) :
  let dst := archive_path file_path (w_clock w) in
  w_fs w !! file_path = Some (File content) →
  w_fs w !! dst = Some (File old) →
  Os.isdir (w_fs w) (PROCESSED_DIR /: get_category file_path) = true →
  mkdir_fault C (PROCESSED_DIR /: get_category file_path) (w_ext w) = (e1, None) →
  move_fault C file_path dst e1 = (e2, None) →
  ∃ w', sort_and_move C file_path w = (w', inr tt) ∧
    w_fs w' = <[dst := File content]> (delete file_path (w_fs w)) ∧
    w_fs w' !! dst = Some (File content) ∧
    errors (w_log w') = errors (w_log w).
Proof.
  intros dst Hsrc Hdst Hdir Hmk Hmv.
  assert (Hmove : Shutil.move file_path dst (w_fs w)
                  = inr (<[dst := File content]> (delete file_path (w_fs w)))).
  { unfold Shutil.move.
    assert (Os.isdir (w_fs w) dst = false) as ->.
    { unfold Os.isdir. rewrite Hdst. reflexivity. }
    unfold Os.rename. rewrite Hsrc.
    unfold dst, archive_path. rewrite parent_div, Hdir. simpl negb. cbv iota.
    fold (archive_path file_path (w_clock w)). fold dst. by rewrite Hdst. }
  eexists. split; [|split; [|split]].
  - unfold sort_and_move. cbv zeta.
    erewrite bind_inr;
      [|unfold mkdir; rewrite Hmk; world_simpl;
        rewrite (Path_mkdir_existing _ _ Hdir); reflexivity].
    erewrite bind_inr; [|reflexivity].
    erewrite bind_inr;
      [|unfold shutil_move; world_simpl; fold (archive_path file_path (w_clock w));
        fold dst; rewrite Hmv, Hmove; reflexivity].
    reflexivity.
  - reflexivity.
  - world_simpl. apply lookup_insert_eq.
  - world_simpl. unfold errors. rewrite omap_app. simpl. by rewrite app_nil_r.
Qed.

Lemma archive_move_replaces_existing_file_witness :
  let p := INBOX_DIR /: "notes.md" in
  let w := Demo.world
             (Demo.inbox_only "notes.md" "alpha beta" ++
              [(PROCESSED_DIR /: "Documents", Dir);
               (PROCESSED_DIR /: "Documents" /: "1001_notes.md", File "old")])
             1001 5 in
  ∃ w', sort_and_move Demo.collaborators p w = (w', inr tt) ∧
    w_fs w' = <[archive_path p 1001 := File "alpha beta"]> (delete p (w_fs w)) ∧
    w_fs w' !! archive_path p 1001 = Some (File "alpha beta") ∧
    errors (w_log w') = errors (w_log w).
Proof.
  intros p w.
  apply (archive_move_replaces_existing_file Demo.collaborators p w
           "alpha beta" "old" 5%nat 5%nat); vm_compute; reflexivity.
Defined.

(** C5, as stated, fails: a file already in the category directory under
    the destination name is replaced, and the attempt ends normally with no
    error reported. *)
Lemma archive_collision_overwrites :
  let p := INBOX_DIR /: "notes.md" in
  let dst := PROCESSED_DIR /: "Documents" /: "1001_notes.md" in
  let w := Demo.world
             (Demo.inbox_only "notes.md" "alpha beta" ++
              [(PROCESSED_DIR /: "Documents", Dir); (dst, File "old")])
             1000 5 in
  let w' := (process_file Demo.collaborators Demo.model p w).1 in
  w_fs w !! dst = Some (File "old") ∧
  archive_path p (w_clock w') = dst ∧
  w_fs w' !! dst = Some (File "alpha beta") ∧
  w_fs w' !! p = None ∧
  errors (w_log w') = [] ∧
  ¬ (w_fs w' !! dst = w_fs w !! dst ∧ errors (w_log w') ≠ []).
Proof.
  intros p dst w w'.
  assert (Hnew : w_fs w' !! dst = Some (File "alpha beta")) by (vm_compute; reflexivity).
  assert (Hold : w_fs w !! dst = Some (File "old")) by (vm_compute; reflexivity).
  split; [exact Hold|]. split; [vm_compute; reflexivity|]. split; [exact Hnew|].
  split; [vm_compute; reflexivity|]. split; [vm_compute; reflexivity|].
  intros [Hsame _]. rewrite Hnew, Hold in Hsame. discriminate Hsame.
Qed.






(** ** The index after per-chunk upserts *)











(** ** What an attempt writes to the log *)

Lemma attempts_app (l1 l2 : list (level * string)) :
  attempts (l1 ++ l2) = (attempts l1 ++ attempts l2)%list.
Proof. apply omap_app. Qed.

Lemma attempts_info (msg : string) :
  attempts [(INFO, msg)]
  = match PyStr.strip_prefix "New file detected: " msg with
    | Some n => [n]
    | None => []
    end.
Proof. unfold attempts. cbn [omap list_omap fst snd]. by destruct (PyStr.strip_prefix _ _). Qed.

Lemma attempts_error (msg : string) : attempts [(ERROR, msg)] = [].
Proof. reflexivity. Qed.

Lemma strip_prefix_app (pre s : string) : PyStr.strip_prefix pre (pre +:+ s) = Some s.
Proof.
  induction pre as [|a pre IH]; simpl; [by destruct s|].
  by rewrite Ascii.eqb_refl.
Qed.

Section Log.

Context {E : Type} (C : Collaborators E) (em : InfinityEmbedding).

Lemma logs_quietly_bind {A B : Type} (m : M E A) (k : A → M E B) :
  logs_quietly m → (∀ x, logs_quietly (k x)) → logs_quietly (m ≫= k).
Proof.
  intros Hm Hk w w' r H.
  apply bind_inv in H as [(e & H & _)|(w1 & a & H1 & H2)]; [by eapply Hm|].
  destruct (Hm _ _ _ H1) as (m1 & Hl1 & Ha1).
  destruct (Hk _ _ _ _ H2) as (m2 & Hl2 & Ha2).
  exists (m1 ++ m2)%list. split.
  - by rewrite Hl2, Hl1, (assoc_L (++)).
  - by rewrite attempts_app, Ha1, Ha2.
Qed.

Lemma logs_quietly_silent {A : Type} (m : M E A) :
  (∀ w w' r, m w = (w', r) → w_log w' = w_log w) → logs_quietly m.
Proof.
  intros H w w' r Hrun. exists []. split; [|done].
  rewrite app_nil_r. by eapply H.
Qed.

Lemma logger_info_quiet msg :
  PyStr.strip_prefix "New file detected: " msg = None →
  logs_quietly (logger_info msg : M E unit).
Proof.
  intros Hmsg w w' r [= <- _]. exists [(INFO, msg)]. split; [done|].
  by rewrite attempts_info, Hmsg.
Qed.

Lemma from_documents_silent documents (w w' : World E) r :
  from_documents C em documents w = (w', r) → w_log w' = w_log w.
Proof.
  intros H.
  destruct (from_documents_spec C em documents (w_fs w) (w_clock w) (w_log w) (w_ext w))
    as (e' & chunks & k & r' & _ & _ & _ & Hrun).
  specialize (Hrun (w_index w)). rewrite <- world_eta, H in Hrun.
  by injection Hrun as -> _.
Qed.

Lemma load_and_index_quiet file_path : logs_quietly (load_and_index C em file_path).
Proof.
  unfold load_and_index. cbv zeta.
  apply logs_quietly_bind; [by apply logger_info_quiet|intros _].
  apply logs_quietly_bind.
  { apply logs_quietly_silent. intros w w' r. unfold reader_load_data.
    destruct (load_data _ _ _ _). by intros [= <- _]. }
  intros documents.
  apply logs_quietly_bind; [by apply logger_info_quiet|intros _].
  apply logs_quietly_bind; [by apply logger_info_quiet|intros _].
  apply logs_quietly_bind;
    [apply logs_quietly_silent, from_documents_silent|intros _].
  by apply logger_info_quiet.
Qed.

Lemma sort_and_move_quiet file_path : logs_quietly (sort_and_move C file_path).
Proof.
  unfold sort_and_move. cbv zeta.
  apply logs_quietly_bind.
  { apply logs_quietly_silent. intros w w' r. unfold mkdir.
    destruct (mkdir_fault _ _ _) as [e1 [x|]]; [by intros [= <- _]|].
    cbv zeta. destruct (Path_mkdir _ _); by intros [= <- _]. }
  intros _. apply logs_quietly_bind.
  { apply logs_quietly_silent. by intros w w' r [= <- _]. }
  intros t. apply logs_quietly_bind.
  { apply logs_quietly_silent. intros w w' r. unfold shutil_move.
    destruct (move_fault _ _ _ _) as [e1 [x|]]; [by intros [= <- _]|].
    cbv zeta. destruct (Shutil.move _ _ _); by intros [= <- _]. }
  intros _. by apply logger_info_quiet.
Qed.

(** One call of [process_file], one detection message, for the name of
    its path. *)
Lemma process_file_attempts file_path (w : World E) :
  attempts (w_log (process_file C em file_path w).1)
  = (attempts (w_log w) ++ [PyPath.name file_path])%list.
Proof.
  rewrite process_file_unfold. unfold try_except.
  destruct (process_file_try C em file_path (settled file_path w))
    as [w1 r] eqn:Htry.
  assert (Hquiet : ∃ more, w_log w1 = (w_log (settled file_path w) ++ more)%list
                           ∧ attempts more = []).
  { revert Htry. unfold process_file_try.
    apply (logs_quietly_bind _ _ (load_and_index_quiet file_path)
             (λ _, sort_and_move_quiet file_path)). }
  destruct Hquiet as (more & Hlog & Hmore).
  assert (Hw1 : attempts (w_log w1) = (attempts (w_log w) ++ [PyPath.name file_path])%list).
  { rewrite Hlog. unfold settled. world_simpl.
    rewrite !attempts_app, Hmore, app_nil_r.
    by rewrite attempts_info, strip_prefix_app. }
  destruct r as [[cls msg|cls]|[]]; simpl; try done.
  world_simpl. by rewrite attempts_app, Hw1, attempts_error, app_nil_r.
Qed.

End Log.

(** ** Backlog scan *)

Lemma inbox_entry (q : path) :
  q ≠ [] → PyPath.parent q = INBOX_DIR → q = INBOX_DIR /: PyPath.name q.
Proof.
  intros Hq Hparent. unfold PyPath.div, PyPath.name. rewrite <- Hparent.
  by apply app_removelast_last.
Qed.

Lemma filter_agree {A : Type} (P Q : A → Prop)
    `{∀ x, Decision (P x)} `{∀ x, Decision (Q x)} (l : list A) :
  (∀ x, x ∈ l → P x ↔ Q x) → filter P l = filter Q l.
Proof.
  induction l as [|a l IH]; intros Hl; [done|].
  rewrite !filter_cons.
  assert (Ha : P a ↔ Q a) by (apply Hl; left).
  rewrite IH by (intros x Hx; apply Hl; by right).
  destruct (decide (P a)), (decide (Q a)); tauto.
Qed.

Section Scan.

Context {E : Type} (C : Collaborators E) (em : InfinityEmbedding).
Hypothesis HC : errors_only C.

(** Processing one regular inbox file leaves the other inbox entries as
    they are. *)
Lemma process_file_other_entries file_path q (w : World E) :
  Os.isfile (w_fs w) file_path = true →
  q ≠ file_path → q ≠ [] → PyPath.parent q = INBOX_DIR →
  Os.isfile (w_fs (process_file C em file_path w).1) q = Os.isfile (w_fs w) q.
Proof.
  intros Hreg Hne Hq Hparent.
  unfold Os.isfile in Hreg.
  destruct (w_fs w !! file_path) as [[content| |]|] eqn:Hsrc; try done.
  destruct (process_file_spec C em file_path w (File content) Hsrc)
    as (fs1 & chunks & k & w2 & r & Hrun & Hadded & _ & _ & _ & _ & Hcases);
    [done|].
  rewrite Hrun. cbn [fst].
  destruct Hcases as [(Hfs & _)|(_ & _ & _ & _ & real & Hfs & Hreal)].
  - rewrite Hfs. by eapply dirs_added_isfile.
  - assert (Hlen : length q = 3%nat).
    { rewrite (inbox_entry q Hq Hparent). reflexivity. }
    assert (Hreal_ne : real ≠ q).
    { intros ->. unfold archive_path, PyPath.div in Hreal.
      destruct Hreal as [->|[_ ->]]; rewrite !length_app in Hlen;
        simpl in Hlen; lia. }
    unfold Os.isfile. rewrite Hfs, lookup_insert_ne, lookup_delete_ne by done.
    by eapply (dirs_added_isfile _ _ _ q) in Hadded.
Qed.

(** The loop calls [process_file] once for each entry that is a regular
    file, in the order of the listing, and for nothing else. *)
Lemma backlog_loop_spec entries : ∀ w : World E,
  NoDup entries →
  (∀ q, q ∈ entries → q ≠ [] ∧ PyPath.parent q = INBOX_DIR) →
  ∃ w', backlog_loop C em entries w = (w', inr tt) ∧
    attempts (w_log w')
    = (attempts (w_log w)
       ++ map PyPath.name (filter (λ q, Os.isfile (w_fs w) q = true) entries))%list.
Proof.
  induction entries as [|p rest IH]; intros w Hnodup Hentries.
  - exists w. split; [done|]. by rewrite app_nil_r.
  - apply NoDup_cons in Hnodup as [Hp Hnodup].
    assert (Hrest : ∀ q, q ∈ rest → q ≠ [] ∧ PyPath.parent q = INBOX_DIR).
    { intros q Hq. apply Hentries. by right. }
    cbn [backlog_loop]. erewrite bind_inr; [|reflexivity].
    destruct (Os.isfile (w_fs w) p) eqn:Hreg.
    + destruct (process_file_returns C em HC p w) as (w1 & Hrun & _).
      erewrite bind_inr; [|exact Hrun].
      destruct (IH w1 Hnodup Hrest) as (w' & Hloop & Hlog).
      exists w'. split; [done|].
      rewrite Hlog, filter_cons_True by done.
      assert (w1 = (process_file C em p w).1) as -> by (by rewrite Hrun).
      rewrite process_file_attempts, <- (assoc_L (++)). cbn [map app].
      do 3 f_equal. apply filter_agree. intros q Hq.
      rewrite process_file_other_entries; [done|done| |apply Hrest|apply Hrest];
        [|done|done].
      intros ->. done.
    + erewrite bind_inr; [|reflexivity].
      destruct (IH w Hnodup Hrest) as (w' & Hloop & Hlog).
      exists w'. split; [done|].
      rewrite Hlog, filter_cons_False; [done|]. by rewrite Hreg.
Qed.

End Scan.

(** C9. When the inbox is a directory and the collaborators fail with
    errors only, the startup backlog scan returns normally and has called
    [process_file] exactly once for every regular file that was in the
    inbox, and for nothing else (directories and special entries are
    skipped); a live creation event for something that is not a directory
    is processed as well. *)
Theorem backlog_scan_processes_each_file_once {E : Type} (C : Collaborators E)
    (em : InfinityEmbedding) (w : World E) :
  errors_only C →
  Os.isdir (w_fs w) INBOX_DIR = true →
  ∃ w' names,
    main_backlog_scan C em w = (w', inr tt) ∧
    attempts (w_log w') = (attempts (w_log w) ++ names)%list ∧
    NoDup names ∧
    (∀ n, n ∈ names ↔ Os.isfile (w_fs w) (INBOX_DIR /: n) = true) ∧
    (∀ event w0, is_directory event = false →
       on_created C em event w0 = process_file C em (src_path event) w0).
Proof.
  intros HC Hdir.
  set (entries := filter (λ q, q ≠ [] ∧ PyPath.parent q = INBOX_DIR)
                    (map_to_list (w_fs w)).*1).
  assert (Hentries : ∀ q, q ∈ entries → q ≠ [] ∧ PyPath.parent q = INBOX_DIR).
  { intros q Hq. by apply list_elem_of_filter in Hq as [? _]. }
  assert (Hnodup : NoDup entries).
  { apply NoDup_filter, NoDup_fst_map_to_list. }
  destruct (backlog_loop_spec C em HC entries w Hnodup Hentries) as (w' & Hloop & Hlog).
  exists w', (map PyPath.name (filter (λ q, Os.isfile (w_fs w) q = true) entries)).
  split; [|split; [done|split; [|split]]].
  - unfold main_backlog_scan. erewrite bind_inr; [exact Hloop|].
    unfold Path_iterdir. by rewrite Hdir.
  - apply NoDup_fmap_2_strong; [|by apply NoDup_filter].
    intros q1 q2 [_ H1]%list_elem_of_filter [_ H2]%list_elem_of_filter Hname.
    destruct (Hentries q1 H1) as [Hq1 Hp1], (Hentries q2 H2) as [Hq2 Hp2].
    rewrite (inbox_entry q1 Hq1 Hp1), (inbox_entry q2 Hq2 Hp2). by rewrite Hname.
  - intros n. rewrite list_elem_of_fmap. split.
    + intros (q & -> & [Hreg Hq]%list_elem_of_filter).
      destruct (Hentries q Hq) as [Hq1 Hp1]. by rewrite <- (inbox_entry q Hq1 Hp1).
    + intros Hreg. exists (INBOX_DIR /: n). split; [by rewrite name_div|].
      apply list_elem_of_filter. split; [done|].
      apply list_elem_of_filter. split; [by rewrite parent_div|].
      unfold Os.isfile in Hreg.
      destruct (w_fs w !! (INBOX_DIR /: n)) as [x|] eqn:Hlook; [|done].
      apply list_elem_of_fmap. exists (INBOX_DIR /: n, x). split; [done|].
      by apply elem_of_map_to_list.
  - intros event w0 Hev. unfold on_created. by rewrite Hev.
Qed.

Lemma backlog_scan_processes_each_file_once_witness :
  let w := Demo.world
             (Demo.inbox_only "notes.md" "alpha beta gamma"
              ++ [(INBOX_DIR /: "report.pdf", File "quarterly figures");
                  (INBOX_DIR /: "drafts", Dir)])
             1000 2 in
  ∃ w' names,
    main_backlog_scan Demo.collaborators Demo.model w = (w', inr tt) ∧
    attempts (w_log w') = (attempts (w_log w) ++ names)%list ∧
    NoDup names ∧
    (∀ n, n ∈ names ↔ Os.isfile (w_fs w) (INBOX_DIR /: n) = true) ∧
    (∀ event w0, is_directory event = false →
       on_created Demo.collaborators Demo.model event w0
       = process_file Demo.collaborators Demo.model (src_path event) w0).
Proof.
  intros w.
  apply (backlog_scan_processes_each_file_once Demo.collaborators Demo.model w).
  - exact Demo_errors_only.
  - vm_compute. reflexivity.
Defined.

(** * Further properties of the code *)

(** ** File names and categories *)

Lemma rfind_free (c : ascii) (s : string) : free_of c s → PyStr.rfind c s = None.
Proof.
  induction s as [|a s IH]; simpl; [done|]. intros [Ha Hs].
  rewrite IH by done. by rewrite (proj2 (Ascii.eqb_neq a c)).
Qed.

Lemma rfind_last (c : ascii) (stem rest : string) :
  free_of c rest →
  PyStr.rfind c (stem +:+ String c rest) = Some (String.length stem).
Proof.
  intros Hfree. induction stem as [|a stem IH]; simpl.
  - by rewrite rfind_free, Ascii.eqb_refl.
  - by rewrite IH.
Qed.

Lemma drop_app_length (stem rest : string) :
  PyStr.drop (String.length stem) (stem +:+ rest) = rest.
Proof. induction stem as [|a stem IH]; simpl; [by destruct rest|done]. Qed.

Lemma length_append (s1 s2 : string) :
  String.length (s1 +:+ s2) = (String.length s1 + String.length s2)%nat.
Proof. induction s1 as [|a s1 IH]; simpl; [done|]. by rewrite IH. Qed.

Lemma lower_append (s1 s2 : string) :
  PyStr.lower (s1 +:+ s2) = PyStr.lower s1 +:+ PyStr.lower s2.
Proof. induction s1 as [|a s1 IH]; simpl; [done|]. by rewrite IH. Qed.

(** The suffix of [stem.body], for a body without a dot. *)
Lemma suffix_stem_dot_body (d : path) (stem body : string) :
  stem ≠ "" → body ≠ "" → free_of "." body →
  PyPath.suffix (d /: (stem +:+ "." +:+ body)) = "." +:+ body.
Proof.
  intros Hstem Hbody Hfree. unfold PyPath.suffix. rewrite name_div. cbv zeta.
  change ("." +:+ body) with (String "." body).
  rewrite rfind_last by done. rewrite length_append. cbn [String.length].
  assert (0 < String.length stem)%nat by (destruct stem; [done|simpl; lia]).
  assert (0 < String.length body)%nat by (destruct body; [done|simpl; lia]).
  replace (0 <? String.length stem)%nat with true by (symmetry; apply Nat.ltb_lt; lia).
  replace (String.length stem <? String.length stem + S (String.length body) - 1)%nat
    with true by (symmetry; apply Nat.ltb_lt; lia).
  simpl. apply drop_app_length.
Qed.

(** X1. A file name [stem.body] with a non-empty stem (which may itself
    contain dots) and a non-empty body without a dot is classified by the
    lower-cased body alone, in whatever directory the file is: only the last
    extension counts, and its letter case does not. *)
Theorem category_of_last_extension (d : path) (stem body : string) :
  let ext := "." +:+ PyStr.lower body in
  let file_path := d /: (stem +:+ "." +:+ body) in
  stem ≠ "" → body ≠ "" → free_of "." body →
  PyPath.suffix file_path = "." +:+ body ∧
  (ext = ".pdf" → get_category file_path = "PDF") ∧
  (ext ∈ [".md"; ".txt"; ".html"; ".htm"] → get_category file_path = "Documents") ∧
  (ext ∈ [".py"; ".js"; ".ts"; ".go"; ".cpp"; ".h"; ".java"; ".yaml"; ".yml"] →
   get_category file_path = "Code") ∧
  (ext ≠ ".pdf" → ext ∉ [".md"; ".txt"; ".html"; ".htm"] →
   ext ∉ [".py"; ".js"; ".ts"; ".go"; ".cpp"; ".h"; ".java"; ".yaml"; ".yml"] →
   get_category file_path = "Other").
Proof.
  intros ext file_path Hstem Hbody Hfree.
  assert (Hsuffix := suffix_stem_dot_body d stem body Hstem Hbody Hfree).
  split; [exact Hsuffix|].
  assert (Hext : PyStr.lower (PyPath.suffix file_path) = ext).
  { unfold file_path. rewrite Hsuffix. reflexivity. }
  assert (Htable := get_category_table file_path). cbv zeta in Htable.
  rewrite Hext in Htable. exact Htable.
Qed.

Lemma category_of_last_extension_witness :
  PyPath.suffix (INBOX_DIR /: "backup.2024.tar.YAML") = ".YAML" ∧
  get_category (INBOX_DIR /: "backup.2024.tar.YAML") = "Code".
Proof.
  destruct (category_of_last_extension INBOX_DIR "backup.2024.tar" "YAML")
    as (Hs & _ & _ & Hcode & _).
  - done.
  - done.
  - simpl. repeat split; done.
  - split; [exact Hs|]. apply Hcode. simpl. set_solver.
Defined.

(** X2. A name without a dot, a name whose only dot is its first character
    (a hidden file such as [.pdf] or [.gitignore]) and a name that ends in
    a dot have no suffix for [Path.suffix], so they are classified Other. *)
Theorem names_without_extension_are_other (d : path) (n : string) :
  free_of "." n →
  get_category (d /: n) = "Other" ∧
  get_category (d /: ("." +:+ n)) = "Other" ∧
  (∀ stem, get_category (d /: (stem +:+ ".")) = "Other").
Proof.
  intros Hfree.
  assert (Hother : ∀ p, PyPath.suffix p = "" → get_category p = "Other").
  { intros p Hp. unfold get_category. by rewrite Hp. }
  split; [|split].
  - apply Hother. unfold PyPath.suffix. rewrite name_div. cbv zeta.
    by rewrite rfind_free.
  - apply Hother. unfold PyPath.suffix. rewrite name_div. cbv zeta.
    change ("." +:+ n) with ("" +:+ String "." n).
    by rewrite rfind_last.
  - intros stem. apply Hother. unfold PyPath.suffix. rewrite name_div. cbv zeta.
    change (stem +:+ ".") with (stem +:+ String "." "").
    rewrite rfind_last by done. rewrite length_append. cbn [String.length].
    replace (String.length stem <? String.length stem + 1 - 1)%nat with false
      by (symmetry; apply Nat.ltb_ge; lia).
    by rewrite andb_false_r.
Qed.

Lemma names_without_extension_are_other_witness :
  get_category (INBOX_DIR /: "pdf") = "Other" ∧
  get_category (INBOX_DIR /: ".pdf") = "Other" ∧
  get_category (INBOX_DIR /: "report.pdf.") = "Other".
Proof.
  destruct (names_without_extension_are_other INBOX_DIR "pdf") as (H1 & H2 & H3).
  - simpl. repeat split; done.
  - split; [exact H1|]. split; [exact H2|]. exact (H3 "report.pdf").
Defined.

Lemma eqb_lower_dot (a : ascii) :
  Ascii.eqb (PyStr.lower_ascii a) "." = Ascii.eqb a ".".
Proof. by destruct a as [[] [] [] [] [] [] [] []]. Qed.

Lemma lower_ascii_idemp (a : ascii) :
  PyStr.lower_ascii (PyStr.lower_ascii a) = PyStr.lower_ascii a.
Proof. by destruct a as [[] [] [] [] [] [] [] []]. Qed.

Lemma lower_idemp (s : string) : PyStr.lower (PyStr.lower s) = PyStr.lower s.
Proof. induction s as [|a s IH]; simpl; [done|]. by rewrite lower_ascii_idemp, IH. Qed.

Lemma rfind_lower (s : string) : PyStr.rfind "." (PyStr.lower s) = PyStr.rfind "." s.
Proof. induction s as [|a s IH]; simpl; [done|]. by rewrite IH, eqb_lower_dot. Qed.

Lemma length_lower (s : string) : String.length (PyStr.lower s) = String.length s.
Proof. induction s as [|a s IH]; simpl; [done|]. by rewrite IH. Qed.

Lemma drop_lower (i : nat) (s : string) :
  PyStr.drop i (PyStr.lower s) = PyStr.lower (PyStr.drop i s).
Proof.
  revert s. induction i as [|i IH]; intros s; [done|].
  destruct s as [|a s]; simpl; [done|]. apply IH.
Qed.

(** X3. The category of a file is that of its lower-cased name, whatever
    directory either is in: classification ignores letter case in the whole
    name and looks at the final path component only. *)
Theorem get_category_ignores_case_and_directory (d d' : path) (n : string) :
  get_category (d /: n) = get_category (d' /: PyStr.lower n).
Proof.
  assert (Hsuffix : PyPath.suffix (d' /: PyStr.lower n)
                    = PyStr.lower (PyPath.suffix (d /: n))).
  { unfold PyPath.suffix. rewrite !name_div. cbv zeta.
    rewrite rfind_lower, length_lower.
    destruct (PyStr.rfind "." n) as [i|]; [|done].
    destruct (_ && _); [|done]. apply drop_lower. }
  unfold get_category. by rewrite Hsuffix, lower_idemp.
Qed.

(** ** Archive names *)

Lemma pretty_N_go_free (x : N) : ∀ s, free_of "_" s → free_of "_" (pretty_N_go x s).
Proof.
  induction (N.lt_wf_0 x) as [x _ IH]; intros s Hs.
  assert (x = 0 ∨ 0 < x)%N as [->|Hpos] by lia.
  - by rewrite pretty_N_go_0.
  - rewrite pretty_N_go_step by done. apply IH; [by apply N.div_lt|].
    split; [|done]. unfold pretty_N_char. by repeat case_match.
Qed.

Lemma pretty_Z_free (t : Z) : free_of "_" (pretty t).
Proof.
  assert (HN : ∀ x : N, free_of "_" (pretty x)).
  { intros x. unfold pretty, pretty_N. case_decide; [by simpl|].
    by apply pretty_N_go_free. }
  destruct t as [|x|x]; unfold pretty, pretty_Z.
  - by simpl.
  - apply HN.
  - split; [done|]. apply HN.
Qed.

Lemma split_at_first (c : ascii) (s1 s2 r1 r2 : string) :
  free_of c s1 → free_of c s2 →
  s1 +:+ String c r1 = s2 +:+ String c r2 → s1 = s2 ∧ r1 = r2.
Proof.
  revert s2. induction s1 as [|a s1 IH]; intros [|b s2]; simpl.
  - intros _ _ [= ->]. done.
  - intros _ [Hb _] [= <- _]. done.
  - intros [Ha _] _ [= -> _]. done.
  - intros [_ H1] [_ H2] [= -> Heq]. destruct (IH s2 H1 H2 Heq) as [-> ->]. done.
Qed.

(** X4. Two archive destinations are the same path only for the same
    category, the same original file name and the same second: the
    timestamp prefix cannot run into the name, because the decimal numeral
    holds no underscore. A collision therefore needs the same name to be
    archived twice within one second. *)
Theorem archive_path_inj (p p' : path) (t t' : Z) :
  archive_path p t = archive_path p' t' →
  get_category p = get_category p' ∧ PyPath.name p = PyPath.name p' ∧ t = t'.
Proof.
  unfold archive_path, PyPath.div, PROCESSED_DIR. simpl.
  intros [= Hcat Hname]. split; [done|].
  apply (split_at_first "_") in Hname as [Ht Hn]; [|apply pretty_Z_free..].
  split; [done|]. by apply (inj pretty).
Qed.

Lemma archive_path_inj_witness :
  let p := INBOX_DIR /: "notes.md" in
  let p' := INBOX_DIR /: "2024" /: "notes.md" in
  get_category p = get_category p' ∧ PyPath.name p = PyPath.name p' ∧ 1001%Z = 1001%Z.
Proof.
  intros p p'. apply (archive_path_inj p p' 1001 1001). reflexivity.
Defined.

(** ** Embedding client: responses *)

Lemma comprehension_inr {A B : Type} (f : A → exn + B) (l : list A) (ys : list B) :
  comprehension f l = inr ys ↔ Forall2 (λ a y, f a = inr y) l ys.
Proof.
  revert ys. induction l as [|a l IH]; intros ys; simpl.
  - split; [intros [= <-]; constructor|by inversion 1].
  - destruct (f a) as [e|y] eqn:Ha.
    + split; [done|]. inversion 1; congruence.
    + destruct (comprehension f l) as [e|ys'] eqn:Hl.
      * split; [done|]. inversion 1 as [|? y' ? ys'' _ Hrest]; subst.
        by apply IH in Hrest.
      * split.
        -- intros [= <-]. constructor; [done|]. by apply IH.
        -- inversion 1 as [|? y' ? ys'' Hy Hrest]; subst.
           apply IH in Hrest. congruence.
Qed.

Lemma comprehension_inl {A B : Type} (f : A → exn + B) (l : list A) :
  Exists (λ a, ∃ e, f a = inl e) l → ∃ e, comprehension f l = inl e.
Proof.
  induction 1 as [a l [e Ha]|a l _ [e IH]]; simpl.
  - rewrite Ha. eauto.
  - destruct (f a); [eauto|]. rewrite IH. eauto.
Qed.

Section EmbeddingResponses.

Context {E : Type} (C : Collaborators E) (self : InfinityEmbedding).

Lemma raise_for_status_error (r : Response) (w : World E) :
  (400 ≤ status_code r < 600)%nat →
  raise_for_status r w
  = (w, inl (Exception "HTTPError" (pretty (status_code r) +:+ " Error"))).
Proof.
  intros [Hlo Hhi]. unfold raise_for_status.
  replace (400 <=? status_code r)%nat with true by (symmetry; apply Nat.leb_le; lia).
  replace (status_code r <? 600)%nat with true by (symmetry; apply Nat.ltb_lt; lia).
  reflexivity.
Qed.

(** X5. A response with a client- or server-error status (400 to 599)
    makes both the batch call and the single call raise [HTTPError]; the
    body is not looked at, and no vector is returned. *)
Theorem error_status_raises_HTTPError (texts : list string) (w : World E)
    (e' : E) (status : nat) (content : option json) :
  requests_post C (base_url self +:+ "/embeddings")
    {| req_input := texts; req_model := model_name self |} (w_ext w)
    = (e', inr {| status_code := status; body := content |}) →
  (400 ≤ status < 600)%nat →
  _get_text_embeddings C self texts w
  = (set_ext e' w, inl (Exception "HTTPError" (pretty status +:+ " Error"))) ∧
  (∀ text, texts = [text] →
     _get_text_embedding C self text w
     = (set_ext e' w, inl (Exception "HTTPError" (pretty status +:+ " Error")))).
Proof.
  intros Hpost Hstatus. split; [|intros text ->].
  - unfold _get_text_embeddings.
    erewrite bind_inr; [|unfold post; rewrite Hpost; reflexivity].
    erewrite bind_inl; [reflexivity|]. by apply raise_for_status_error.
  - unfold _get_text_embedding.
    erewrite bind_inr; [|unfold post; rewrite Hpost; reflexivity].
    erewrite bind_inl; [reflexivity|]. by apply raise_for_status_error.
Qed.

(** X6. No partial batch: when the body of a success response is not
    JSON, or is an object without the key "data", or its "data" array holds
    one object without the key "embedding", the batch call raises an error
    and returns no vector at all, however many well-formed items the array
    holds. *)
Theorem malformed_body_fails_whole_batch (texts : list string) (w : World E)
    (e' : E) (status : nat) (content : option json) :
  requests_post C (base_url self +:+ "/embeddings")
    {| req_input := texts; req_model := model_name self |} (w_ext w)
    = (e', inr {| status_code := status; body := content |}) →
  (status < 400)%nat →
  content = None ∨
  (∃ fields, content = Some (JObj fields) ∧ Py.assoc "data" fields = None) ∨
  (∃ j items i fields,
     content = Some j ∧ Py.getitem j "data" = inr (JArr items) ∧
     items !! i = Some (JObj fields) ∧ Py.assoc "embedding" fields = None) →
  ∃ x, _get_text_embeddings C self texts w = (set_ext e' w, inl x) ∧ is_Exception x.
Proof.
  intros Hpost Hstatus Hbad. unfold _get_text_embeddings.
  erewrite bind_inr; [|unfold post; rewrite Hpost; reflexivity].
  erewrite bind_inr; [|by apply raise_for_status_success].
  destruct Hbad as [->|[(fields & -> & Hdata)|(j & items & i & fields & -> & Hdata & Hi & Hemb)]].
  - eexists. by erewrite bind_inl; [|reflexivity].
  - eexists. erewrite bind_inr; [|reflexivity].
    erewrite bind_inl; [|unfold lift; simpl; rewrite Hdata; reflexivity]. done.
  - destruct (comprehension_inl (λ item, Py.getitem item "embedding") items) as [x Hx].
    { apply Exists_exists. exists (JObj fields). split.
      - by eapply list_elem_of_lookup_2.
      - simpl. rewrite Hemb. eauto. }
    exists x. split.
    + erewrite bind_inr; [|reflexivity].
      erewrite bind_inr; [|unfold lift; rewrite Hdata; reflexivity].
      erewrite bind_inr; [|reflexivity]. unfold lift. by rewrite Hx.
    + eapply comprehension_error; [|exact Hx]. intros a y. apply getitem_error.
Qed.

(** X7. The batch call returns what the response holds, not what was
    asked for: one vector per item of the "data" array, in the order of the
    array. The number of items is not compared with the number of input
    texts, so a response with fewer (or more) items is accepted as it is. *)
Theorem batch_follows_response_items (texts : list string) (w : World E)
    (e' : E) (status : nat) (j : json) (items vectors : list json) :
  requests_post C (base_url self +:+ "/embeddings")
    {| req_input := texts; req_model := model_name self |} (w_ext w)
    = (e', inr {| status_code := status; body := Some j |}) →
  (status < 400)%nat →
  Py.getitem j "data" = inr (JArr items) →
  Forall2 (λ item v, Py.getitem item "embedding" = inr v) items vectors →
  _get_text_embeddings C self texts w = (set_ext e' w, inr vectors) ∧
  length vectors = length items.
Proof.
  intros Hpost Hstatus Hdata Hitems. split; [|symmetry; by eapply Forall2_length].
  unfold _get_text_embeddings.
  erewrite bind_inr; [|unfold post; rewrite Hpost; reflexivity].
  erewrite bind_inr; [|by apply raise_for_status_success].
  erewrite bind_inr; [|reflexivity].
  erewrite bind_inr; [|unfold lift; rewrite Hdata; reflexivity].
  erewrite bind_inr; [|reflexivity].
  unfold lift. by rewrite (proj2 (comprehension_inr _ _ _) Hitems).
Qed.

(** X8. The single call agrees with the batch call: whenever the batch
    call for the one-element list [[text]] returns a non-empty list, the
    single call for [text] returns its first vector, with the same effect
    on the outside. *)
Theorem single_is_head_of_batch (text : string) (w w' : World E)
    (v : json) (vs : list json) :
  _get_text_embeddings C self [text] w = (w', inr (v :: vs)) →
  _get_text_embedding C self text w = (w', inr v) ∧
  _get_query_embedding C self text w = (w', inr v).
Proof.
  intros Hbatch.
  assert (Hsingle : _get_text_embedding C self text w = (w', inr v));
    [|by split].
  unfold _get_text_embeddings in Hbatch. unfold _get_text_embedding.
  apply bind_inv in Hbatch as [(? & _ & [=])|(w1 & resp & Hpost & Hbatch)].
  erewrite bind_inr; [|exact Hpost].
  apply bind_inv in Hbatch as [(? & _ & [=])|(w2 & [] & Hstatus & Hbatch)].
  erewrite bind_inr; [|exact Hstatus].
  apply bind_inv in Hbatch as [(? & _ & [=])|(w3 & j & Hjson & Hbatch)].
  erewrite bind_inr; [|exact Hjson].
  apply bind_inv in Hbatch as [(? & _ & [=])|(w4 & data & Hdata & Hbatch)].
  erewrite bind_inr; [|exact Hdata].
  apply bind_inv in Hbatch as [(? & _ & [=])|(w5 & items & Hiter & Hbatch)].
  unfold lift in Hiter, Hbatch. injection Hiter as <- Hiter.
  injection Hbatch as <- Hbatch.
  apply comprehension_inr in Hbatch.
  inversion Hbatch as [|item ? rest ? Hitem _]; subst.
  assert (Hfirst : first_item data = inr item).
  { destruct data as [| | |s|l|fields]; simpl in Hiter; try done.
    - destruct s as [|c s]; simpl in Hiter; [done|].
      injection Hiter as <- _. by simpl in Hitem.
    - injection Hiter as ->. done.
    - destruct fields as [|[k x] fields]; simpl in Hiter; [done|].
      injection Hiter as <- _. by simpl in Hitem. }
  erewrite bind_inr; [|unfold lift; rewrite Hfirst; reflexivity].
  unfold lift. by rewrite Hitem.
Qed.

End EmbeddingResponses.

Lemma error_status_raises_HTTPError_witness :
  let C := {| load_data := Demo.loader;
              requests_post := λ _ _ (e : nat),
                (e, inr {| status_code := 503; body := None |});
              qdrant_upsert := Demo.database;
              mkdir_fault := λ _ e, (e, None);
              move_fault := λ _ _ e, (e, None) |} in
  _get_text_embeddings C Demo.model ["a"] (Demo.world [] 0 0)
  = (Demo.world [] 0 0, inl (Exception "HTTPError" "503 Error")) ∧
  _get_text_embedding C Demo.model "a" (Demo.world [] 0 0)
  = (Demo.world [] 0 0, inl (Exception "HTTPError" "503 Error")).
Proof.
  intros C.
  destruct (error_status_raises_HTTPError C Demo.model ["a"] (Demo.world [] 0 0)
              0%nat 503 None) as [Hbatch Hsingle].
  - reflexivity.
  - lia.
  - split; [exact Hbatch|]. by apply Hsingle.
Defined.

Lemma malformed_body_fails_whole_batch_witness :
  let C := {| load_data := Demo.loader;
              requests_post := λ _ _ (e : nat),
                (e, inr {| status_code := 200;
                           body := Some (JObj [("data",
                             JArr [JObj [("embedding", JArr [JNum "1"])];
                                   JObj [("index", JNum "1")]])]) |});
              qdrant_upsert := Demo.database;
              mkdir_fault := λ _ e, (e, None);
              move_fault := λ _ _ e, (e, None) |} in
  ∃ x, _get_text_embeddings C Demo.model ["a"; "b"] (Demo.world [] 0 0)
       = (Demo.world [] 0 0, inl x) ∧ is_Exception x.
Proof.
  intros C.
  eapply (malformed_body_fails_whole_batch C Demo.model ["a"; "b"]
            (Demo.world [] 0 0) 0%nat 200).
  - reflexivity.
  - lia.
  - right. right. eexists _, _, 1%nat, _. repeat split; reflexivity.
Defined.

Lemma batch_follows_response_items_witness :
  _get_text_embeddings Short.collaborators Demo.model ["a"; "b"; "c"]
    (Demo.world [] 0 0)
  = (Demo.world [] 0 0, inr [Demo.embedding_of "a"; Demo.embedding_of "b"]).
Proof.
  apply (batch_follows_response_items Short.collaborators Demo.model
           ["a"; "b"; "c"] (Demo.world [] 0 0) 0%nat 200
           (JObj [("data", JArr [JObj [("embedding", Demo.embedding_of "a")];
                                 JObj [("embedding", Demo.embedding_of "b")]])])
           [JObj [("embedding", Demo.embedding_of "a")];
            JObj [("embedding", Demo.embedding_of "b")]]
           [Demo.embedding_of "a"; Demo.embedding_of "b"]).
  - reflexivity.
  - lia.
  - reflexivity.
  - repeat constructor.
Defined.

Lemma single_is_head_of_batch_witness :
  _get_text_embedding Demo.collaborators Demo.model "a" (Demo.world [] 0 0)
  = (Demo.world [] 0 0, inr (Demo.embedding_of "a")) ∧
  _get_query_embedding Demo.collaborators Demo.model "a" (Demo.world [] 0 0)
  = (Demo.world [] 0 0, inr (Demo.embedding_of "a")).
Proof.
  apply (single_is_head_of_batch Demo.collaborators Demo.model "a"
           (Demo.world [] 0 0) (Demo.world [] 0 0) (Demo.embedding_of "a") []).
  reflexivity.
Defined.

(** ** One attempt: log, other files, repeated events *)

Lemma errors_app (l1 l2 : list (level * string)) :
  errors (l1 ++ l2) = (errors l1 ++ errors l2)%list.
Proof. apply omap_app. Qed.

Lemma errors_info_only (l : list (level * string)) :
  Forall (λ rec, rec.1 = INFO) l → errors l = [].
Proof.
  induction 1 as [|[lv msg] l Hlv _ IH]; [done|].
  simpl in Hlv. subst lv. exact IH.
Qed.

Section AttemptLog.

Context {E : Type} (C : Collaborators E) (em : InfinityEmbedding).

Lemma logs_info_only_bind {A B : Type} (m : M E A) (k : A → M E B) :
  logs_info_only m → (∀ x, logs_info_only (k x)) → logs_info_only (m ≫= k).
Proof.
  intros Hm Hk w w' r H.
  apply bind_inv in H as [(e & H & _)|(w1 & a & H1 & H2)]; [by eapply Hm|].
  destruct (Hm _ _ _ H1) as (m1 & Hl1 & Ha1).
  destruct (Hk _ _ _ _ H2) as (m2 & Hl2 & Ha2).
  exists (m1 ++ m2)%list. split.
  - by rewrite Hl2, Hl1, (assoc_L (++)).
  - by apply Forall_app.
Qed.

Lemma logs_info_only_silent {A : Type} (m : M E A) :
  (∀ w w' r, m w = (w', r) → w_log w' = w_log w) → logs_info_only m.
Proof.
  intros H w w' r Hrun. exists []. split; [|done].
  rewrite app_nil_r. by eapply H.
Qed.

Lemma logger_info_info_only msg : logs_info_only (logger_info msg : M E unit).
Proof.
  intros w w' r [= <- _]. exists [(INFO, msg)]. split; [done|].
  by repeat constructor.
Qed.

Lemma process_file_try_info_only file_path :
  logs_info_only (process_file_try C em file_path).
Proof.
  unfold process_file_try, load_and_index, sort_and_move. cbv zeta.
  apply logs_info_only_bind; [|intros _].
  { apply logs_info_only_bind; [apply logger_info_info_only|intros _].
    apply logs_info_only_bind.
    { apply logs_info_only_silent. intros w w' r. unfold reader_load_data.
      destruct (load_data _ _ _ _). by intros [= <- _]. }
    intros documents.
    apply logs_info_only_bind; [apply logger_info_info_only|intros _].
    apply logs_info_only_bind; [apply logger_info_info_only|intros _].
    apply logs_info_only_bind;
      [apply logs_info_only_silent, from_documents_silent|intros _].
    apply logger_info_info_only. }
  apply logs_info_only_bind.
  { apply logs_info_only_silent. intros w w' r. unfold mkdir.
    destruct (mkdir_fault _ _ _) as [e1 [x|]]; [by intros [= <- _]|].
    cbv zeta. destruct (Path_mkdir _ _); by intros [= <- _]. }
  intros _. apply logs_info_only_bind.
  { apply logs_info_only_silent. by intros w w' r [= <- _]. }
  intros t. apply logs_info_only_bind.
  { apply logs_info_only_silent. intros w w' r. unfold shutil_move.
    destruct (move_fault _ _ _ _) as [e1 [x|]]; [by intros [= <- _]|].
    cbv zeta. destruct (Shutil.move _ _ _); by intros [= <- _]. }
  intros _. apply logger_info_info_only.
Qed.

(** X9. An attempt writes to the error log exactly when its [try] block
    raised an error: then one line, "Error processing <name>: <error>", and
    no line at level ERROR when the block returned (or was interrupted). *)
Theorem one_error_line_per_failed_attempt (file_path : path) (w : World E) :
  errors (w_log (process_file C em file_path w).1)
  = match (process_file_try C em file_path (settled file_path w)).2 with
    | inl (Exception cls msg) =>
        (errors (w_log w)
         ++ ["Error processing " +:+ PyPath.name file_path +:+ ": " +:+ msg])%list
    | _ => errors (w_log w)
    end.
Proof.
  rewrite process_file_unfold. unfold try_except.
  destruct (process_file_try C em file_path (settled file_path w))
    as [w1 r] eqn:Htry.
  destruct (process_file_try_info_only _ _ _ _ Htry) as (more & Hlog & Hinfo).
  assert (Hw1 : errors (w_log w1) = errors (w_log w)).
  { rewrite Hlog, errors_app, (errors_info_only more Hinfo), app_nil_r.
    unfold settled. world_simpl. by rewrite errors_app, app_nil_r. }
  destruct r as [[cls msg|cls]|[]]; world_simpl; cbn [fst snd w_log]; try done.
  by rewrite errors_app, Hw1.
Qed.

(** Processing a path the loader rejects: the rejection is logged, and
    nothing else changes. *)
Lemma process_file_load_rejected file_path (w : World E) e' cls msg :
  load_data C file_path (w_fs w) (w_ext w) = (e', inl (Exception cls msg)) →
  ∃ w', process_file C em file_path w = (w', inr tt) ∧
    w_fs w' = w_fs w ∧ w_index w' = w_index w.
Proof.
  intros Hload. eexists. rewrite process_file_unfold.
  unfold try_except, process_file_try, load_and_index. cbv zeta.
  erewrite bind_inl;
    [|erewrite bind_inr; [|reflexivity];
      erewrite bind_inl; [reflexivity|];
      unfold reader_load_data, settled; world_simpl; rewrite Hload; reflexivity].
  world_simpl. done.
Qed.

(** X10. Processing a regular file leaves every other regular file where
    it is and as it is, with the one exception of a file that sits at the
    archive destination of the processed file. *)
Theorem other_files_are_left_alone (file_path q : path) (content other : string)
    (w : World E) :
  let w' := (process_file C em file_path w).1 in
  let dst := archive_path file_path (w_clock w + 1) in
  w_fs w !! file_path = Some (File content) →
  w_fs w !! q = Some (File other) →
  q ≠ file_path → q ≠ dst → q ≠ dst /: PyPath.name file_path →
  w_fs w' !! q = Some (File other).
Proof.
  intros w' dst Hsrc Hq Hne Hdst Hinside.
  destruct (process_file_spec C em file_path w (File content) Hsrc)
    as (fs1 & chunks & k & w2 & r & Hrun & Hadded & _ & _ & _ & _ & Hcases);
    [done|].
  assert (w' = w2) as -> by (unfold w'; by rewrite Hrun).
  assert (Hq1 : fs1 !! q = Some (File other)) by (by eapply dirs_added_kept).
  destruct Hcases as [(Hfs & _)|(_ & _ & _ & _ & real & Hfs & Hreal)].
  - by rewrite Hfs.
  - rewrite Hfs, lookup_insert_ne, lookup_delete_ne; [done|done|].
    fold dst in Hreal. destruct Hreal as [->|[_ ->]]; done.
Qed.

(** X11. A second event for a file that was archived is harmless: once
    the [try] block of the first attempt on an inbox file has returned,
    the file is gone from its inbox path, and with a loader that rejects a
    missing path the next attempt on the same path returns normally and
    leaves file system and index exactly as the first attempt left them. *)
Theorem duplicate_event_after_archiving (name content : string) (w w1 : World E) :
  let p := INBOX_DIR /: name in
  w_fs w !! p = Some (File content) →
  loader_rejects_missing C →
  process_file_try C em p (settled p w) = (w1, inr tt) →
  w_fs w1 !! p = None ∧
  ∃ w2, process_file C em p w1 = (w2, inr tt) ∧
    w_fs w2 = w_fs w1 ∧ w_index w2 = w_index w1.
Proof.
  intros p Hsrc Hrej Hdone.
  destruct (process_file_spec C em p w (File content) Hsrc)
    as (fs1 & chunks & k & w2 & r & Hrun & Hadded & _ & _ & _ & _ & Hcases);
    [done|].
  destruct Hcases as [(_ & w3 & x & Hfail)|(_ & _ & Htry & _ & real & Hfs & Hreal)].
  { rewrite Hdone in Hfail. discriminate Hfail. }
  rewrite Hdone in Htry. injection Htry as <-.
  assert (Hgone : w_fs w1 !! p = None).
  { rewrite Hfs, lookup_insert_ne, lookup_delete_eq; [done|].
    intros ->. unfold archive_path, PyPath.div in Hreal.
    destruct Hreal as [Heq|[_ Heq]]; apply (f_equal length) in Heq;
      unfold p, PyPath.div in Heq; rewrite !length_app in Heq; simpl in Heq; lia. }
  split; [exact Hgone|].
  destruct (Hrej p (w_fs w1) (w_ext w1) Hgone) as (e' & cls & msg & Hload).
  by eapply process_file_load_rejected.
Qed.

End AttemptLog.

Lemma other_files_are_left_alone_witness :
  let p := INBOX_DIR /: "notes.md" in
  let q := INBOX_DIR /: "report.pdf" in
  let w := Demo.world (Demo.inbox_only "notes.md" "alpha beta gamma"
                       ++ [(q, File "quarterly figures")]) 1000 5 in
  w_fs (process_file Demo.collaborators Demo.model p w).1 !! q
  = Some (File "quarterly figures").
Proof.
  intros p q w.
  apply (other_files_are_left_alone Demo.collaborators Demo.model p q
           "alpha beta gamma" "quarterly figures" w); vm_compute; congruence.
Defined.

Lemma duplicate_event_after_archiving_witness :
  let p := INBOX_DIR /: "notes.md" in
  let w := Demo.world (Demo.inbox_only "notes.md" "alpha beta gamma") 1000 5 in
  let w1 := (process_file_try Demo.collaborators Demo.model p (settled p w)).1 in
  w_fs w1 !! p = None ∧
  ∃ w2, process_file Demo.collaborators Demo.model p w1 = (w2, inr tt) ∧
    w_fs w2 = w_fs w1 ∧ w_index w2 = w_index w1.
Proof.
  intros p w w1.
  apply (duplicate_event_after_archiving Demo.collaborators Demo.model
           "notes.md" "alpha beta gamma" w w1).
  - vm_compute. reflexivity.
  - exact Demo_loader_rejects_missing.
  - vm_compute. reflexivity.
Defined.

(** ** Sort and move: occupied names *)

(** A name taken by something that is not a directory is not accepted. *)
Lemma Path_mkdir_taken (d : path) (fs : gmap path node) (x : node) :
  d ≠ [] → fs !! d = Some x → x ≠ Dir →
  Path_mkdir d fs = inl (OSError "FileExistsError" "[Errno 17] File exists" d).
Proof.
  intros Hd Hx Hnd. unfold Path_mkdir. destruct d as [|c d]; [done|].
  assert (Hmk : Os.mkdir (c :: d) fs
                = inl (OSError "FileExistsError" "[Errno 17] File exists" (c :: d))).
  { unfold Os.mkdir, Os.exists_. by rewrite Hx. }
  assert (Hdir : Os.isdir fs (c :: d) = false).
  { unfold Os.isdir. rewrite Hx. by destruct x. }
  cbn [length Path_mkdir_parents take]. rewrite firstn_all, Hmk, Hdir.
  reflexivity.
Qed.

Lemma isdir_lookup (fs : gmap path node) (d : path) :
  d ≠ [] → Os.isdir fs d = true → fs !! d = Some Dir.
Proof.
  intros Hd. destruct d as [|c d]; [done|]. unfold Os.isdir.
  by destruct (fs !! _) as [[]|].
Qed.

Lemma exists_lookup (fs : gmap path node) (d : path) :
  d ≠ [] →
  Os.exists_ fs d = match fs !! d with Some _ => true | None => false end.
Proof. intros Hd. by destruct d. Qed.

Section OccupiedNames.

Context {E : Type} (C : Collaborators E).

(** X12. When the name of the category directory is taken by something
    that is not a directory, the directory creation raises
    [FileExistsError] ([exist_ok] only covers directories): the step raises
    before any move, and the file system is left as it was, the file still
    at its path. *)
Theorem category_name_taken_by_a_file (file_path : path) (w : World E)
    (x : node) (e1 : E) :
  w_fs w !! (PROCESSED_DIR /: get_category file_path) = Some x →
  x ≠ Dir →
  mkdir_fault C (PROCESSED_DIR /: get_category file_path) (w_ext w) = (e1, None) →
  ∃ msg, sort_and_move C file_path w
         = (set_ext e1 w, inl (Exception "FileExistsError" msg)).
Proof.
  intros Hx Hnd Hfault. eexists. unfold sort_and_move. cbv zeta.
  erewrite bind_inl; [reflexivity|].
  unfold mkdir. rewrite Hfault. world_simpl.
  rewrite (Path_mkdir_taken _ _ x); [reflexivity|done|done|done].
Qed.

(** X13. When a directory already has the destination name
    [{epochSeconds}_{originalFilename}], the file is not written over it:
    it is moved into that directory under its original name, or, if the
    directory already holds an entry of that name, the move is refused
    with [shutil.Error] and the file stays where it was. *)
Theorem destination_name_taken_by_a_directory (file_path : path) (w : World E)
    (content : string) (e1 e2 : E) :
  let dst := archive_path file_path (w_clock w) in
  let inside := dst /: PyPath.name file_path in
  w_fs w !! file_path = Some (File content) →
  Os.isdir (w_fs w) (PROCESSED_DIR /: get_category file_path) = true →
  Os.isdir (w_fs w) dst = true →
  mkdir_fault C (PROCESSED_DIR /: get_category file_path) (w_ext w) = (e1, None) →
  move_fault C file_path dst e1 = (e2, None) →
  match w_fs w !! inside with
  | None =>
      ∃ w', sort_and_move C file_path w = (w', inr tt) ∧
        w_fs w' = <[inside := File content]> (delete file_path (w_fs w)) ∧
        w_fs w' !! dst = Some Dir
  | Some _ =>
      ∃ msg, sort_and_move C file_path w = (set_ext e2 w, inl (Exception "Error" msg))
  end.
Proof.
  intros dst inside Hsrc Hdir Hdst Hmk Hmv.
  assert (Hdst_look : w_fs w !! dst = Some Dir).
  { apply isdir_lookup; [|done]. unfold dst, archive_path, PyPath.div.
    intros Heq. apply (f_equal length) in Heq. rewrite !length_app in Heq.
    simpl in Heq. lia. }
  assert (Hne : file_path ≠ dst) by (intros Heq; rewrite Heq in Hsrc; congruence).
  assert (Hstart : ∀ k : unit → M E unit,
            (mkdir C (PROCESSED_DIR /: get_category file_path) ≫= k) w
            = k tt (set_ext e1 w)).
  { intros k. erewrite bind_inr; [reflexivity|]. unfold mkdir.
    rewrite Hmk. world_simpl. by rewrite (Path_mkdir_existing _ _ Hdir). }
  assert (Hinside_ne : inside ≠ []).
  { unfold inside, PyPath.div. intros Heq. apply (f_equal length) in Heq.
    rewrite length_app in Heq. simpl in Heq. lia. }
  destruct (w_fs w !! inside) as [y|] eqn:Hinside.
  - eexists. unfold sort_and_move. cbv zeta. rewrite Hstart.
    erewrite bind_inr; [|reflexivity].
    erewrite bind_inl; [reflexivity|].
    unfold shutil_move. world_simpl.
    fold (archive_path file_path (w_clock w)). fold dst. rewrite Hmv.
    unfold Shutil.move. rewrite Hdst, bool_decide_eq_false_2 by done.
    fold inside. rewrite (exists_lookup _ _ Hinside_ne), Hinside. reflexivity.
  - eexists. split; [|split].
    + unfold sort_and_move. cbv zeta. rewrite Hstart.
      erewrite bind_inr; [|reflexivity].
      erewrite bind_inr; [reflexivity|].
      unfold shutil_move. world_simpl.
      fold (archive_path file_path (w_clock w)). fold dst. rewrite Hmv.
      unfold Shutil.move. rewrite Hdst, bool_decide_eq_false_2 by done.
      fold inside. rewrite (exists_lookup _ _ Hinside_ne), Hinside.
      assert (Hren : Os.rename file_path inside (w_fs w)
                     = inr (<[inside := File content]> (delete file_path (w_fs w)))).
      { unfold Os.rename. rewrite Hsrc. unfold inside at 1.
        rewrite parent_div, Hdst. simpl negb. cbv iota. by rewrite Hinside. }
      rewrite Hren. reflexivity.
    + reflexivity.
    + world_simpl. rewrite lookup_insert_ne, lookup_delete_ne; [done|done|].
      unfold inside, PyPath.div. intros Heq. apply (f_equal length) in Heq.
      rewrite length_app in Heq. simpl in Heq. lia.
Qed.

End OccupiedNames.

Lemma category_name_taken_by_a_file_witness :
  let p := INBOX_DIR /: "notes.md" in
  let w := Demo.world (Demo.inbox_only "notes.md" "alpha beta"
                       ++ [(PROCESSED_DIR /: "Documents", File "not a directory")])
             1001 5 in
  ∃ msg, sort_and_move Demo.collaborators p w
         = (set_ext 5%nat w, inl (Exception "FileExistsError" msg)).
Proof.
  intros p w.
  apply (category_name_taken_by_a_file Demo.collaborators p w
           (File "not a directory") 5%nat).
  - vm_compute. reflexivity.
  - done.
  - reflexivity.
Defined.

Lemma destination_name_taken_by_a_directory_witness :
  let p := INBOX_DIR /: "notes.md" in
  let dst := PROCESSED_DIR /: "Documents" /: "1001_notes.md" in
  let w := Demo.world (Demo.inbox_only "notes.md" "alpha beta"
                       ++ [(PROCESSED_DIR /: "Documents", Dir); (dst, Dir)])
             1001 5 in
  ∃ w', sort_and_move Demo.collaborators p w = (w', inr tt) ∧
    w_fs w' = <[dst /: "notes.md" := File "alpha beta"]> (delete p (w_fs w)) ∧
    w_fs w' !! dst = Some Dir.
Proof.
  intros p dst w.
  assert (H := destination_name_taken_by_a_directory Demo.collaborators p w
                 "alpha beta" 5%nat 5%nat).
  cbv zeta in H.
  replace (w_fs w !! (archive_path p (w_clock w) /: PyPath.name p))
    with (@None node) in H by (vm_compute; reflexivity).
  apply H; vm_compute; reflexivity.
Defined.

(** ** Startup of [main] *)

Lemma take_S_name (m : nat) (d : path) (x : string) :
  d !! m = Some x → PyPath.name (take (S m) d) = x ∧ PyPath.parent (take (S m) d) = take m d.
Proof.
  intros Hx. rewrite (take_S_r _ _ _ Hx). unfold PyPath.name, PyPath.parent.
  by rewrite last_last, removelast_last.
Qed.

Lemma isdir_insert_dir (fs : gmap path node) (d : path) :
  Os.isdir (<[d := Dir]> fs) d = true.
Proof. unfold Os.isdir. destruct d; [done|]. by rewrite lookup_insert_eq. Qed.

Lemma dirs_added_isdir (d q : path) (fs fs' : gmap path node) :
  dirs_added d fs fs' → Os.isdir fs q = true → Os.isdir fs' q = true.
Proof.
  intros Hadded. unfold Os.isdir. destruct q as [|c q]; [done|].
  destruct (fs !! (c :: q)) as [[]|] eqn:Hq; try done.
  by rewrite (dirs_added_kept _ _ _ _ _ Hadded Hq).
Qed.

(** What [os.makedirs(d, exist_ok=True)] does when it returns: it has
    created directories only, all on the way to [d], and [d] is a
    directory. *)
Lemma Os_makedirs_spec (d : path) : ∀ n fs fs',
  (n ≤ length d)%nat → Forall (λ c, c ≠ ".") d →
  Os_makedirs n d fs = inr fs' →
  dirs_added d fs fs' ∧ Os.isdir fs' (take n d) = true.
Proof.
  intros n fs fs' Hn Hdots. revert fs fs' Hn.
  assert (Hpre : ∀ k, take k d `prefix_of` d).
  { intros k. exists (drop k d). by rewrite take_drop. }
  assert (Hfinish : ∀ k fs1 fs2,
            match Os.mkdir (take k d) fs1 with
            | inr fs3 => inr fs3
            | inl e => if Os.isdir fs1 (take k d) then inr fs1 else inl e
            end = inr fs2 →
            dirs_added d fs1 fs2 ∧ Os.isdir fs2 (take k d) = true).
  { intros k fs1 fs2. destruct (Os.mkdir (take k d) fs1) as [e|fs3] eqn:Hmk.
    - destruct (Os.isdir fs1 (take k d)) eqn:Hdir; [|done].
      intros [= <-]. split; [apply dirs_added_refl|done].
    - intros [= <-]. split; [eapply Os_mkdir_dirs_added; [apply Hpre|exact Hmk]|].
      unfold Os.mkdir in Hmk. destruct (Os.exists_ fs1 _); [done|].
      destruct (Os.isdir fs1 _); [|by destruct (Os.exists_ fs1 _)].
      injection Hmk as <-. apply isdir_insert_dir. }
  induction n as [|m IH]; intros fs fs' Hn.
  - cbn [Os_makedirs]. apply Hfinish.
  - cbn [Os_makedirs].
    destruct (d !! m) as [x|] eqn:Hx; [|apply lookup_ge_None in Hx; lia].
    destruct (take_S_name m d x Hx) as [Hname _]. rewrite Hname.
    assert (Hdot : String.eqb x "." = false).
    { apply String.eqb_neq. eapply Forall_forall in Hdots; [exact Hdots|].
      by eapply list_elem_of_lookup_2. }
    rewrite Hdot.
    destruct (negb (Os.exists_ fs (take m d))); [|apply Hfinish].
    destruct (Os_makedirs m d fs) as [e|fs1] eqn:Hrec.
    + destruct (String.eqb (exn_cls e) "FileExistsError"); [apply Hfinish|done].
    + intros Hfin. destruct (IH fs fs1 ltac:(lia) Hrec) as [Hadd1 _].
      destruct (Hfinish (S m) fs1 fs' Hfin) as [Hadd2 Hdir].
      split; [by eapply dirs_added_trans|done].
Qed.

Section MainStartup.

Context {E : Type} (C : Collaborators E) (em : InfinityEmbedding).
Variable start_services : E → E * option exn.

Lemma os_makedirs_spec (d : path) (w w' : World E) r :
  Forall (λ c, c ≠ ".") d →
  os_makedirs C d w = (w', r) →
  w_index w' = w_index w ∧ w_log w' = w_log w ∧
  dirs_added d (w_fs w) (w_fs w') ∧
  (r = inr tt → Os.isdir (w_fs w') d = true).
Proof.
  intros Hdots. unfold os_makedirs.
  destruct (mkdir_fault C d (w_ext w)) as [e1 [x|]].
  { intros [= <- <-]. repeat split; try done. apply dirs_added_refl. }
  world_simpl.
  destruct (Os_makedirs (length d) d (w_fs w)) as [x|fs'] eqn:Hmk.
  { intros [= <- <-]. repeat split; try done. apply dirs_added_refl. }
  intros [= <- <-]. world_simpl.
  destruct (Os_makedirs_spec d (length d) (w_fs w) fs' ltac:(lia) Hdots Hmk)
    as [Hadded Hdir].
  rewrite firstn_all in Hdir. done.
Qed.

Lemma services_spec (w w' : World E) r :
  services start_services w = (w', r) → w' = set_ext (w_ext w') w.
Proof.
  unfold services. destruct (start_services (w_ext w)) as [e [x|]];
    by intros [= <- _].
Qed.

(** What happened when the scan is reached, or when startup gave up: no
    attempt was started, the index and the regular files are as they were;
    and if startup returned, inbox and processed root are directories. *)
Lemma main_prepare_spec (w w0 : World E) r :
  main_prepare C start_services w = (w0, r) →
  w_index w0 = w_index w ∧
  attempts (w_log w0) = attempts (w_log w) ∧
  (∀ q, Os.isfile (w_fs w0) q = Os.isfile (w_fs w) q) ∧
  (r = inr tt →
   Os.isdir (w_fs w0) INBOX_DIR = true ∧ Os.isdir (w_fs w0) PROCESSED_DIR = true).
Proof.
  assert (Hin : Forall (λ c : string, c ≠ ".") INBOX_DIR) by (by repeat constructor).
  assert (Hpr : Forall (λ c : string, c ≠ ".") PROCESSED_DIR) by (by repeat constructor).
  unfold main_prepare. intros Hrun.
  apply bind_inv in Hrun as [(? & [=] & _)|(wa & [] & [= <-] & Hrun)].
  apply bind_inv in Hrun as [(x & H1 & ->)|(wb & [] & H1 & Hrun)].
  { destruct (os_makedirs_spec _ _ _ _ Hin H1) as (Hi & Hl & Ha & _).
    rewrite Hi, Hl. world_simpl. rewrite attempts_app, app_nil_r.
    repeat split; try done. intros q. by eapply dirs_added_isfile. }
  destruct (os_makedirs_spec _ _ _ _ Hin H1) as (Hi1 & Hl1 & Ha1 & Hd1).
  unfold logger_info, modify, set_log in Hi1, Hl1, Ha1.
  cbn [w_fs w_index w_clock w_log w_ext] in Hi1, Hl1, Ha1.
  apply bind_inv in Hrun as [(x & H2 & ->)|(wc & [] & H2 & Hrun)].
  { destruct (os_makedirs_spec _ _ _ _ Hpr H2) as (Hi & Hl & Ha & _).
    rewrite Hi, Hl, Hi1, Hl1. rewrite attempts_app, app_nil_r.
    repeat split; try done. intros q.
    rewrite (dirs_added_isfile _ _ _ q Ha). by eapply dirs_added_isfile. }
  destruct (os_makedirs_spec _ _ _ _ Hpr H2) as (Hi2 & Hl2 & Ha2 & Hd2).
  assert (Hfiles : ∀ q, Os.isfile (w_fs wc) q = Os.isfile (w_fs w) q).
  { intros q. rewrite (dirs_added_isfile _ _ _ q Ha2). by eapply dirs_added_isfile. }
  assert (Hdirs : Os.isdir (w_fs wc) INBOX_DIR = true
                  ∧ Os.isdir (w_fs wc) PROCESSED_DIR = true).
  { split; [|by apply Hd2]. eapply dirs_added_isdir; [exact Ha2|by apply Hd1]. }
  assert (Hlog : attempts (w_log wc) = attempts (w_log w)).
  { rewrite Hl2, Hl1. by rewrite attempts_app, app_nil_r. }
  assert (Hidx : w_index wc = w_index w) by congruence.
  apply bind_inv in Hrun as [(y & H3 & ->)|(wd & [] & H3 & H4)].
  { rewrite (services_spec _ _ _ H3). world_simpl. repeat split; done. }
  injection H4 as <- <-. rewrite (services_spec _ _ _ H3). world_simpl.
  rewrite attempts_app, Hlog, app_nil_r. done.
Qed.

(** The scan on its own, from a world whose inbox is a directory. *)
Lemma main_backlog_scan_spec (w : World E) :
  errors_only C →
  Os.isdir (w_fs w) INBOX_DIR = true →
  ∃ w' names,
    main_backlog_scan C em w = (w', inr tt) ∧
    attempts (w_log w') = (attempts (w_log w) ++ names)%list ∧
    NoDup names ∧
    (∀ n, n ∈ names ↔ Os.isfile (w_fs w) (INBOX_DIR /: n) = true).
Proof.
  intros HC Hdir.
  set (entries := filter (λ q, q ≠ [] ∧ PyPath.parent q = INBOX_DIR)
                    (map_to_list (w_fs w)).*1).
  assert (Hentries : ∀ q, q ∈ entries → q ≠ [] ∧ PyPath.parent q = INBOX_DIR).
  { intros q Hq. by apply list_elem_of_filter in Hq as [? _]. }
  assert (Hnodup : NoDup entries) by apply NoDup_filter, NoDup_fst_map_to_list.
  destruct (backlog_loop_spec C em HC entries w Hnodup Hentries) as (w' & Hloop & Hlog).
  exists w', (map PyPath.name (filter (λ q, Os.isfile (w_fs w) q = true) entries)).
  split; [|split; [done|split]].
  - unfold main_backlog_scan. erewrite bind_inr; [exact Hloop|].
    unfold Path_iterdir. by rewrite Hdir.
  - apply NoDup_fmap_2_strong; [|by apply NoDup_filter].
    intros q1 q2 [_ H1]%list_elem_of_filter [_ H2]%list_elem_of_filter Hname.
    destruct (Hentries q1 H1) as [Hq1 Hp1], (Hentries q2 H2) as [Hq2 Hp2].
    rewrite (inbox_entry q1 Hq1 Hp1), (inbox_entry q2 Hq2 Hp2). by rewrite Hname.
  - intros n. rewrite list_elem_of_fmap. split.
    + intros (q & -> & [Hreg Hq]%list_elem_of_filter).
      destruct (Hentries q Hq) as [Hq1 Hp1]. by rewrite <- (inbox_entry q Hq1 Hp1).
    + intros Hreg. exists (INBOX_DIR /: n). split; [by rewrite name_div|].
      apply list_elem_of_filter. split; [done|].
      apply list_elem_of_filter. split; [by rewrite parent_div|].
      unfold Os.isfile in Hreg.
      destruct (w_fs w !! (INBOX_DIR /: n)) as [x|] eqn:Hlook; [|done].
      apply list_elem_of_fmap. exists (INBOX_DIR /: n, x). split; [done|].
      by apply elem_of_map_to_list.
Qed.

(** X14. Whenever the startup steps of [main] return (both directory
    creations and the start of the services), [main] reaches the end of
    its backlog scan, with collaborators that fail with errors only, and
    has by then started exactly one attempt for every regular file that
    was in the inbox when [main] was called, and none for anything else. *)
Theorem main_processes_the_backlog (w w0 : World E) :
  errors_only C →
  main_prepare C start_services w = (w0, inr tt) →
  ∃ w' names,
    main_startup C em start_services w = (w', inr tt) ∧
    attempts (w_log w') = (attempts (w_log w) ++ names)%list ∧
    NoDup names ∧
    (∀ n, n ∈ names ↔ Os.isfile (w_fs w) (INBOX_DIR /: n) = true).
Proof.
  intros HC Hprep.
  destruct (main_prepare_spec w w0 _ Hprep) as (_ & Hlog & Hfiles & Hdirs).
  destruct (Hdirs eq_refl) as [Hinbox _].
  destruct (main_backlog_scan_spec w0 HC Hinbox) as (w' & names & Hscan & Hatt & Hnd & Hnames).
  exists w', names. split; [|split; [|split; [done|]]].
  - unfold main_startup. by erewrite bind_inr.
  - by rewrite Hatt, Hlog.
  - intros n. by rewrite Hnames, Hfiles.
Qed.

(** X15. When a startup step of [main] raises (a directory cannot be
    created, or a service does not start), [main] raises the same
    exception without reaching the scan: no attempt was started, the index
    is untouched, and every regular file is where it was. *)
Theorem main_gives_up_before_the_scan (w w0 : World E) (x : exn) :
  main_prepare C start_services w = (w0, inl x) →
  main_startup C em start_services w = (w0, inl x) ∧
  attempts (w_log w0) = attempts (w_log w) ∧
  w_index w0 = w_index w ∧
  (∀ q, Os.isfile (w_fs w0) q = Os.isfile (w_fs w) q).
Proof.
  intros Hprep.
  destruct (main_prepare_spec w w0 _ Hprep) as (Hidx & Hlog & Hfiles & _).
  split; [|done]. unfold main_startup. by erewrite bind_inl.
Qed.

End MainStartup.

Lemma main_processes_the_backlog_witness :
  let w := Demo.world (Demo.inbox_only "notes.md" "alpha beta gamma"
                       ++ [(INBOX_DIR /: "report.pdf", File "quarterly figures");
                           (INBOX_DIR /: "drafts", Dir)])
             1000 5 in
  ∃ w' names,
    main_startup Demo.collaborators Demo.model (λ e, (e, None)) w = (w', inr tt) ∧
    attempts (w_log w') = (attempts (w_log w) ++ names)%list ∧
    NoDup names ∧
    (∀ n, n ∈ names ↔ Os.isfile (w_fs w) (INBOX_DIR /: n) = true).
Proof.
  intros w.
  eapply (main_processes_the_backlog Demo.collaborators Demo.model (λ e, (e, None)) w).
  - exact Demo_errors_only.
  - vm_compute. reflexivity.
Defined.

Lemma main_gives_up_before_the_scan_witness :
  let w := Demo.world (Demo.inbox_only "notes.md" "alpha beta gamma") 1000 5 in
  let refused := Exception "ConnectionError" "qdrant is unreachable" in
  ∃ w0,
    main_startup Demo.collaborators Demo.model (λ e, (e, Some refused)) w
    = (w0, inl refused) ∧
    attempts (w_log w0) = attempts (w_log w) ∧
    w_index w0 = w_index w ∧
    (∀ q, Os.isfile (w_fs w0) q = Os.isfile (w_fs w) q).
Proof.
  intros w refused. eexists.
  eapply (main_gives_up_before_the_scan Demo.collaborators Demo.model
            (λ e, (e, Some refused)) w).
  vm_compute. reflexivity.
Defined.

Lemma take_S_nonempty (m : nat) (d : path) : (S m ≤ length d)%nat → take (S m) d ≠ [].
Proof. destruct d; simpl; [lia|done]. Qed.

(** [os.makedirs(d, exist_ok=True)] returns when nothing but directories
    is in the way. *)
Lemma Os_makedirs_succeeds (d : path) : ∀ n fs,
  (n ≤ length d)%nat → Forall (λ c, c ≠ ".") d →
  (∀ k, (1 ≤ k ≤ n)%nat → fs !! take k d = None ∨ fs !! take k d = Some Dir) →
  ∃ fs', Os_makedirs n d fs = inr fs'.
Proof.
  intros n fs Hn Hdots. revert fs Hn.
  assert (Hfinish : ∀ m fs1,
            (S m ≤ length d)%nat →
            Os.isdir fs1 (take m d) = true →
            fs1 !! take (S m) d = None ∨ fs1 !! take (S m) d = Some Dir →
            ∃ fs2, match Os.mkdir (take (S m) d) fs1 with
                   | inr fs3 => inr fs3
                   | inl e => if Os.isdir fs1 (take (S m) d) then inr fs1 else inl e
                   end = inr fs2).
  { intros m fs1 Hm Hhead Hname.
    destruct (d !! m) as [x|] eqn:Hx; [|apply lookup_ge_None in Hx; lia].
    destruct (take_S_name m d x Hx) as [_ Hparent].
    pose proof (take_S_nonempty m d Hm) as Hne.
    unfold Os.mkdir. rewrite (exists_lookup _ _ Hne), Hparent, Hhead.
    destruct Hname as [Hnone|Hdir].
    - rewrite Hnone. eauto.
    - rewrite Hdir. unfold Os.isdir. rewrite Hdir.
      destruct (take (S m) d); [done|]. eauto. }
  induction n as [|m IH]; intros fs Hn Hfree.
  - cbn [Os_makedirs]. simpl. eauto.
  - cbn [Os_makedirs].
    destruct (d !! m) as [x|] eqn:Hx; [|apply lookup_ge_None in Hx; lia].
    destruct (take_S_name m d x Hx) as [Hname _]. rewrite Hname.
    assert (Hdot : String.eqb x "." = false).
    { apply String.eqb_neq. eapply Forall_forall in Hdots; [exact Hdots|].
      by eapply list_elem_of_lookup_2. }
    rewrite Hdot.
    destruct (Os.exists_ fs (take m d)) eqn:Hex; simpl negb; cbv iota.
    + apply Hfinish; [done| |apply Hfree; lia].
      destruct m as [|m']; [done|].
      destruct (Hfree (S m') ltac:(lia)) as [Hnone|Hdir].
      * unfold Os.exists_ in Hex. unfold Os.isdir.
        destruct (take (S m') d); [done|]. by rewrite Hnone in Hex.
      * unfold Os.isdir. rewrite Hdir. by destruct (take (S m') d).
    + destruct (IH fs ltac:(lia)) as [fs1 Hrec].
      { intros k Hk. apply Hfree. lia. }
      rewrite Hrec.
      destruct (Os_makedirs_spec d m fs fs1 ltac:(lia) Hdots Hrec) as [Hadded Hhead].
      apply Hfinish; [done|done|].
      destruct (Hadded (take (S m) d)) as [->|(_ & -> & _)]; [|by right].
      apply Hfree. lia.
Qed.

Section MainStarts.

Context {E : Type} (C : Collaborators E).
Variable start_services : E → E * option exn.

(** X16. [main] starts on any volume where nothing but directories is in
    the way: when the operating system refuses no directory creation, the
    services start, and each of /app, /app/inbox and /app/processed is
    either missing or a directory, the startup steps return, and inbox and
    processed root are directories afterwards, created if they were
    missing. *)
Theorem main_prepare_succeeds (w : World E) :
  (∀ d e, (mkdir_fault C d e).2 = None) →
  (∀ e, (start_services e).2 = None) →
  (∀ d, d ∈ [["app"]; INBOX_DIR; PROCESSED_DIR] →
        w_fs w !! d = None ∨ w_fs w !! d = Some Dir) →
  ∃ w0, main_prepare C start_services w = (w0, inr tt) ∧
    Os.isdir (w_fs w0) INBOX_DIR = true ∧
    Os.isdir (w_fs w0) PROCESSED_DIR = true.
Proof.
  intros Hos Hserv Hfree.
  assert (Hin : Forall (λ c : string, c ≠ ".") INBOX_DIR) by (by repeat constructor).
  assert (Hpr : Forall (λ c : string, c ≠ ".") PROCESSED_DIR) by (by repeat constructor).
  assert (Hmakedirs : ∀ d (w1 : World E),
            Forall (λ c : string, c ≠ ".") d →
            (∀ k, (1 ≤ k ≤ length d)%nat →
                  w_fs w1 !! take k d = None ∨ w_fs w1 !! take k d = Some Dir) →
            ∃ w2, os_makedirs C d w1 = (w2, inr tt)).
  { intros d w1 Hd Hk. unfold os_makedirs.
    pose proof (Hos d (w_ext w1)) as Hnone.
    destruct (mkdir_fault C d (w_ext w1)) as [e1 fault]. simpl in Hnone. subst fault.
    world_simpl.
    destruct (Os_makedirs_succeeds d (length d) (w_fs w1) ltac:(lia) Hd Hk) as [fs' ->].
    eauto. }
  set (wa := set_log (w_log w ++ [(INFO, "Starting Ingestion Engine...")]) w).
  destruct (Hmakedirs INBOX_DIR wa Hin) as [wb Hb].
  { intros [|[|[|k]]] [Hk1 Hk2]; simpl in Hk2; try lia; cbn [take INBOX_DIR];
      apply Hfree; set_solver. }
  destruct (os_makedirs_spec C INBOX_DIR wa wb _ Hin Hb) as (_ & _ & Hadded & _).
  destruct (Hmakedirs PROCESSED_DIR wb Hpr) as [wc Hc].
  { assert (Hkeep : ∀ d, w_fs w !! d = None ∨ w_fs w !! d = Some Dir →
                         w_fs wb !! d = None ∨ w_fs wb !! d = Some Dir).
    { intros d Hd. destruct (Hadded d) as [->|(_ & -> & _)]; [exact Hd|by right]. }
    intros [|[|[|k]]] [Hk1 Hk2]; simpl in Hk2; try lia; cbn [take PROCESSED_DIR];
      apply Hkeep, Hfree; set_solver. }
  pose proof (Hserv (w_ext wc)) as Hs.
  destruct (start_services (w_ext wc)) as [e3 fault] eqn:Hstart.
  simpl in Hs. subst fault.
  assert (Hrun : main_prepare C start_services w
                 = (set_log (w_log wc ++ [(INFO, "Watching directory: "
                                                  +:+ str_path INBOX_DIR)])
                      (set_ext e3 wc), inr tt)).
  { unfold main_prepare.
    erewrite bind_inr; [|reflexivity]. fold wa.
    erewrite bind_inr; [|exact Hb].
    erewrite bind_inr; [|exact Hc].
    erewrite bind_inr; [|unfold services; rewrite Hstart; reflexivity].
    reflexivity. }
  eexists. split; [exact Hrun|].
  by apply (main_prepare_spec C start_services _ _ _ Hrun).
Qed.

End MainStarts.

Lemma main_prepare_succeeds_witness :
  let w := Demo.world [(["app"], Dir); (INBOX_DIR, Dir);
                       (INBOX_DIR /: "notes.md", File "alpha beta gamma")] 1000 5 in
  ∃ w0, main_prepare Demo.collaborators (λ e, (e, None)) w = (w0, inr tt) ∧
    Os.isdir (w_fs w0) INBOX_DIR = true ∧
    Os.isdir (w_fs w0) PROCESSED_DIR = true.
Proof.
  intros w.
  apply (main_prepare_succeeds Demo.collaborators (λ e, (e, None)) w).
  - reflexivity.
  - reflexivity.
  - intros d Hd.
    repeat (apply elem_of_cons in Hd as [->|Hd];
            [first [left; vm_compute; reflexivity|right; vm_compute; reflexivity]|]).
    by apply elem_of_nil in Hd.
Defined.
